(** * Renderer-side IPC endpoint (shell/renderer/api/electron_api_renderer_ipc.cc)

    A shallow embedding of [IPCRenderer]: its constructor and its six
    methods [Send], [SendSync], [SendTo], [SendToHost], [Invoke] and
    [PostMessage].  The methods are straight-line C++ that thread three
    pieces of mutable state: the V8 isolate (pending exception, promises,
    message-port wrappers) and the mojo proxy [electron_browser_ptr_].
    They are written here in a small state monad over [World], one monadic
    step per C++ statement. *)

From Stdlib Require Import ZArith.
From stdpp Require Import base option list gmap strings.

Local Open Scope string_scope.
Local Open Scope list_scope.
#[local] Set Warnings "-register-all,-clear-no-such-hyp".

(** ** V8 values *)

Definition PortId := nat.
Definition PromiseId := nat.
Definition RequestId := nat.

(** The script values that reach the endpoint.  Functions, message ports,
    arrays and plain objects are all [v8::Object]s. *)
Inductive V8Value : Type :=
| V8Undefined
| V8Null
| V8Boolean (b : bool)
| V8Number (n : Z)
| V8String (s : string)
| V8Function (name : string)
| V8MessagePort (port : PortId)
| V8Array (elems : list V8Value)
| V8Object (props : list (string * V8Value)).

Definition IsArray (v : V8Value) : bool :=
  match v with V8Array _ => true | _ => false end.

Definition IsObject (v : V8Value) : bool :=
  match v with
  | V8Function _ | V8MessagePort _ | V8Array _ | V8Object _ => true
  | _ => false
  end.

(** [v8::Exception::Error(message)]. *)
Inductive V8Exception : Type :=
| Error (message : string).

(** ** blink messages *)

Record CloneableMessage := mkCloneable { encoded_message : list Z }.

Record MessagePortChannel := mkChannel { channel_of : PortId }.

Record TransferableMessage := mkTransferable {
  cloneable : CloneableMessage;
  ports : list MessagePortChannel
}.

(** ** The mojo interface [electron::mojom::ElectronBrowser] *)

(** The once-callback bound in [Invoke]: the lambda
    [[](Promise p, CloneableMessage result) { p.Resolve(result); }]
    with the promise moved into it.  The lambda captures nothing else, so
    the closure is its bound promise. *)
Record InvokeCallback := mkCallback { bound_promise : PromiseId }.

Module mojom.
Inductive ElectronBrowser : Type :=
| Message (internal : bool) (channel : string) (m : CloneableMessage)
| Invoke (internal : bool) (channel : string) (m : CloneableMessage)
         (callback : InvokeCallback)
| ReceivePostMessage (channel : string) (m : TransferableMessage)
| MessageTo (internal send_to_all : bool) (web_contents_id : Z)
            (channel : string) (m : CloneableMessage)
| MessageHost (channel : string) (m : CloneableMessage)
| MessageSync (internal : bool) (channel : string) (m : CloneableMessage).
End mojom.

(** ** Calls that leave the endpoint

    Every statement of the six methods that calls into a collaborator
    appends one [Action] to the journal, in program order. *)
Inductive Action : Type :=
| ASerialize (v : V8Value)
| ADeserialize (m : CloneableMessage)
| AConvertTransfer (v : V8Value)
| ADisentangle (o : V8Value)
| AThrow (e : V8Exception)
| ARemote (c : mojom.ElectronBrowser)
| AResolve (p : PromiseId) (m : CloneableMessage).

Inductive PromiseState : Type :=
| Pending
| Fulfilled (v : V8Value).

Record World := mkWorld {
  pending_exception : option V8Exception;
  neutered : gset PortId;
  promises : gmap PromiseId PromiseState;
  next_promise : PromiseId;
  responders : gmap RequestId InvokeCallback;
  next_request_id : RequestId;
  journal : list Action
}.

Definition empty_world : World :=
  mkWorld None ∅ ∅ 0 ∅ 0 [].

Definition set_exception (e : V8Exception) (w : World) : World :=
  mkWorld (Some e) (neutered w) (promises w) (next_promise w)
          (responders w) (next_request_id w) (journal w).

Definition set_neutered (s : gset PortId) (w : World) : World :=
  mkWorld (pending_exception w) s (promises w) (next_promise w)
          (responders w) (next_request_id w) (journal w).

Definition set_promises (ps : gmap PromiseId PromiseState) (n : PromiseId)
    (w : World) : World :=
  mkWorld (pending_exception w) (neutered w) ps n
          (responders w) (next_request_id w) (journal w).

Definition set_responders (rs : gmap RequestId InvokeCallback) (n : RequestId)
    (w : World) : World :=
  mkWorld (pending_exception w) (neutered w) (promises w) (next_promise w)
          rs n (journal w).

Definition record (a : Action) (w : World) : World :=
  mkWorld (pending_exception w) (neutered w) (promises w) (next_promise w)
          (responders w) (next_request_id w) (journal w ++ [a]).

(** What has been handed to the transport, oldest first. *)
Definition remote_call (a : Action) : option mojom.ElectronBrowser :=
  match a with ARemote c => Some c | _ => None end.

Definition transmitted (w : World) : list mojom.ElectronBrowser :=
  omap remote_call (journal w).

Definition disentangled (a : Action) : option V8Value :=
  match a with ADisentangle o => Some o | _ => None end.

(** ** The state monad *)

Definition M (A : Type) : Type := World -> A * World.

Definition ret {A} (a : A) : M A := fun w => (a, w).

Definition bind {A B} (m : M A) (k : A -> M B) : M B :=
  fun w => let (a, w') := m w in k a w'.

Declare Scope ipc_scope.
Delimit Scope ipc_scope with ipc.
Notation "'let*' x ':=' m 'in' k" := (bind m (fun x => k))
  (at level 10, x name, m at level 100, k at level 200) : ipc_scope.
Local Open Scope ipc_scope.

Definition run {A} (m : M A) (w : World) : World := snd (m w).
Definition result {A} (m : M A) (w : World) : A := fst (m w).

(** ** Collaborators

    The value codec (shell/common/v8_value_serializer.cc) and the remote
    host are interfaces of the endpoint: the methods below are written
    against any implementation of them. *)
Class Collaborators := {
  (** the codec's encoder: the bytes of a value, or the exception it raises *)
  serializer : V8Value -> V8Exception + CloneableMessage;
  (** the codec's decoder *)
  deserializer : CloneableMessage -> V8Value;
  (** what the host answers to a blocking [MessageSync] *)
  sync_reply : bool -> string -> CloneableMessage -> CloneableMessage
}.

Section Endpoint.
Context `{Collaborators}.

(** [isolate->ThrowException(e)] *)
Definition ThrowException (e : V8Exception) : M unit :=
  fun w => (tt, set_exception e (record (AThrow e) w)).

(** [electron::SerializeV8Value(isolate, value, &out)]: returns whether
    [out] was written.  On failure it "sets an exception"
    (comment in [PostMessage]). *)
Definition SerializeV8Value (value : V8Value) : M (option CloneableMessage) :=
  fun w =>
    match serializer value with
    | inr out => (Some out, record (ASerialize value) w)
    | inl e => (None, set_exception e (record (ASerialize value) w))
    end.

(** [electron::DeserializeV8Value(isolate, in)] *)
Definition DeserializeV8Value (m : CloneableMessage) : M V8Value :=
  fun w => (deserializer m, record (ADeserialize m) w).

(** [gin::ConvertFromV8(isolate, *transfer, &transferables)] with
    [transferables] a [std::vector<v8::Local<v8::Object>>]: gin converts
    an array element by element, so the value must be an array and every
    element an object. *)
Definition to_objects (value : V8Value) : option (list V8Value) :=
  match value with
  | V8Array elems => if forallb IsObject elems then Some elems else None
  | _ => None
  end.

Definition ConvertFromV8 (value : V8Value) : M (option (list V8Value)) :=
  fun w => (to_objects value, record (AConvertTransfer value) w).

(** Modelled from the spec:
    [blink::WebMessagePortConverter::DisentangleAndExtractMessagePortChannel]
    (third_party/blink, not among the sources).  The Port Extractor must
    "verify it is a port reference (not an arbitrary object), detach it";
    once transferred "the sending endpoint's handle is invalidated", so a
    port that was already neutered is not a valid port either. *)
Definition DisentangleAndExtractMessagePortChannel (o : V8Value)
    : M (option MessagePortChannel) :=
  fun w =>
    let w' := record (ADisentangle o) w in
    match o with
    | V8MessagePort p =>
        if decide (p ∈ neutered w) then (None, w')
        else (Some (mkChannel p), set_neutered ({[p]} ∪ neutered w) w')
    | _ => (None, w')
    end.

(** A call through [electron_browser_ptr_] that expects no reply. *)
Definition remote (c : mojom.ElectronBrowser) : M unit :=
  fun w => (tt, record (ARemote c) w).

(** [electron_browser_ptr_->MessageSync(internal, channel, message, &result)] *)
Definition MessageSync (internal : bool) (channel : string)
    (message : CloneableMessage) : M CloneableMessage :=
  fun w => (sync_reply internal channel message,
            record (ARemote (mojom.MessageSync internal channel message)) w).

(** [gin_helper::Promise<T> p(isolate)]: a fresh pending promise. *)
Definition Promise_new : M PromiseId :=
  fun w =>
    let p := next_promise w in
    (p, set_promises (<[p := Pending]> (promises w)) (S p) w).

(** Modelled from the spec: [gin_helper::Promise<CloneableMessage>::Resolve]
    (shell/common/gin_helper/promise.h, not among the sources).  The
    promise "resolves with the decoded reply" and "resolves exactly once":
    a promise that is no longer pending keeps its value. *)
Definition Promise_Resolve (p : PromiseId) (result : CloneableMessage)
    : M unit :=
  fun w =>
    let w' := record (AResolve p result) w in
    match promises w !! p with
    | Some Pending =>
        (tt, set_promises (<[p := Fulfilled (deserializer result)]> (promises w))
                          (next_promise w) w')
    | _ => (tt, w')
    end.

(** Running the once-callback bound in [Invoke]. *)
Definition run_callback (cb : InvokeCallback) (result : CloneableMessage)
    : M unit :=
  Promise_Resolve (bound_promise cb) result.

(** Modelled from the spec: the Pending-Call Table of the Remote Stub (the
    mojo proxy generated from shell/common/api/api.mojom, not among the
    sources).  [call_async] "registers a continuation keyed by a fresh
    correlation id". *)
Definition remote_Invoke (internal : bool) (channel : string)
    (message : CloneableMessage) (callback : InvokeCallback) : M unit :=
  fun w =>
    let id := next_request_id w in
    (tt, set_responders (<[id := callback]> (responders w)) (S id)
           (record (ARemote (mojom.Invoke internal channel message callback)) w)).

(** Modelled from the spec: reply delivery by the Remote Stub.  The entry
    is "removed from the Pending-Call Table immediately on resolution";
    "a reply with an unknown or already-resolved correlation id is
    discarded". *)
Definition deliver_reply (id : RequestId) (result : CloneableMessage)
    : M unit :=
  fun w =>
    match responders w !! id with
    | None => (tt, w)
    | Some cb =>
        run_callback cb result
          (set_responders (delete id (responders w)) (next_request_id w) w)
    end.

(** ** The six methods of [IPCRenderer] *)

Definition Send (internal : bool) (channel : string) (arguments : V8Value)
    : M unit :=
  let* message := SerializeV8Value arguments in
  match message with
  | None => ret tt
  | Some message => remote (mojom.Message internal channel message)
  end.

(** An empty [v8::Local<v8::Promise>] is [None]. *)
Definition Invoke (internal : bool) (channel : string) (arguments : V8Value)
    : M (option PromiseId) :=
  let* message := SerializeV8Value arguments in
  match message with
  | None => ret None
  | Some message =>
      let* p := Promise_new in
      let handle := p in
      let* _ := remote_Invoke internal channel message (mkCallback p) in
      ret (Some handle)
  end.

(** The [for] loop of [PostMessage]: [None] when the loop left the method
    through its [return]. *)
Fixpoint extract_ports (transferables : list V8Value)
    (ports : list MessagePortChannel) : M (option (list MessagePortChannel)) :=
  match transferables with
  | [] => ret (Some ports)
  | transferable :: rest =>
      let* port := DisentangleAndExtractMessagePortChannel transferable in
      match port with
      | None =>
          let* _ := ThrowException (Error "Invalid value for transfer") in
          ret None
      | Some port => extract_ports rest (ports ++ [port])
      end
  end.

Definition PostMessage (channel : string) (message_value : V8Value)
    (transfer : option V8Value) : M unit :=
  let* transferable_message := SerializeV8Value message_value in
  match transferable_message with
  | None => ret tt
  | Some transferable_message =>
      let* transferables :=
        match transfer with
        | Some transfer => ConvertFromV8 transfer
        | None => ret (Some [])
        end in
      match transferables with
      | None => ThrowException (Error "Invalid value for transfer")
      | Some transferables =>
          let* ports := extract_ports transferables [] in
          match ports with
          | None => ret tt
          | Some ports =>
              remote (mojom.ReceivePostMessage channel
                        (mkTransferable transferable_message ports))
          end
      end
  end.

Definition SendTo (internal send_to_all : bool) (web_contents_id : Z)
    (channel : string) (arguments : V8Value) : M unit :=
  let* message := SerializeV8Value arguments in
  match message with
  | None => ret tt
  | Some message =>
      remote (mojom.MessageTo internal send_to_all web_contents_id
                              channel message)
  end.

Definition SendToHost (channel : string) (arguments : V8Value) : M unit :=
  let* message := SerializeV8Value arguments in
  match message with
  | None => ret tt
  | Some message => remote (mojom.MessageHost channel message)
  end.

(** An empty [v8::Local<v8::Value>] is [None]. *)
Definition SendSync (internal : bool) (channel : string)
    (arguments : V8Value) : M (option V8Value) :=
  let* message := SerializeV8Value arguments in
  match message with
  | None => ret None
  | Some message =>
      let* result := MessageSync internal channel message in
      let* value := DeserializeV8Value result in
      ret (Some value)
  end.
End Endpoint.

(** ** Construction *)

Record InterfaceProvider := mkProvider { provider_id : nat }.
Record RenderFrame := mkRenderFrame { GetRemoteInterfaces : InterfaceProvider }.
Record WebLocalFrame := mkWebFrame { frame_id : nat }.

(** What the constructor reads from its surroundings: the frame of the
    current V8 context and the frame registry of the renderer.  Both are
    pointers in the source, hence [option]. *)
Record ExecutionContext := mkContext {
  FrameForCurrentContext : option WebLocalFrame;
  FromWebFrame : WebLocalFrame -> option RenderFrame
}.

(** [electron::mojom::ElectronBrowserPtr], bound by [GetInterface]. *)
Record ElectronBrowserPtr := mkPtr { bound_to : InterfaceProvider }.

Definition GetInterface (registry : InterfaceProvider) : ElectronBrowserPtr :=
  mkPtr registry.

Record IPCRenderer := mkIPCRenderer { electron_browser_ptr_ : ElectronBrowserPtr }.

Definition GetCurrentRenderFrame (ctx : ExecutionContext) : option RenderFrame :=
  match FrameForCurrentContext ctx with
  | None => None
  | Some frame => FromWebFrame ctx frame
  end.

(** The constructor either runs to its end or dies in [DCHECK(render_frame)];
    it has no way of reporting an error to its caller. *)
Inductive Construction : Type :=
| DcheckFailed
| Constructed (ipc : IPCRenderer).

Definition IPCRenderer_new (ctx : ExecutionContext) : Construction :=
  let render_frame := GetCurrentRenderFrame ctx in
  match render_frame with
  | None => DcheckFailed
  | Some render_frame =>
      Constructed (mkIPCRenderer (GetInterface (GetRemoteInterfaces render_frame)))
  end.

(** ** Scripts: calls into the endpoint interleaved with replies *)

Inductive Event : Type :=
| CallSend (internal : bool) (channel : string) (arguments : V8Value)
| CallSendSync (internal : bool) (channel : string) (arguments : V8Value)
| CallSendTo (internal send_to_all : bool) (web_contents_id : Z)
             (channel : string) (arguments : V8Value)
| CallSendToHost (channel : string) (arguments : V8Value)
| CallInvoke (internal : bool) (channel : string) (arguments : V8Value)
| CallPostMessage (channel : string) (message_value : V8Value)
                  (transfer : option V8Value)
| ReplyArrives (id : RequestId) (result : CloneableMessage).

Section Scripts.
Context `{Collaborators}.

Definition step (e : Event) (w : World) : World :=
  match e with
  | CallSend i c a => run (Send i c a) w
  | CallSendSync i c a => run (SendSync i c a) w
  | CallSendTo i all id c a => run (SendTo i all id c a) w
  | CallSendToHost c a => run (SendToHost c a) w
  | CallInvoke i c a => run (Invoke i c a) w
  | CallPostMessage c v t => run (PostMessage c v t) w
  | ReplyArrives id r => run (deliver_reply id r) w
  end.

Definition exec (es : list Event) (w : World) : World :=
  foldl (fun w e => step e w) w es.
End Scripts.

(** How often promise [p] has been settled through [Promise_Resolve]. *)
Definition resolved_promise (a : Action) : option PromiseId :=
  match a with AResolve p _ => Some p | _ => None end.

Definition resolutions (w : World) : list PromiseId :=
  omap resolved_promise (journal w).

Definition times_resolved (p : PromiseId) (w : World) : nat :=
  length (filter (fun q => q = p) (resolutions w)).

(** ** A stub host for the examples

    It clones scalars, arrays and plain objects, refuses functions and
    message ports, and answers a blocking call with the sum of the numbers
    it was sent. *)
Module Stub.
Definition chars (s : string) : list Z :=
  map (fun c => Z.of_N (Ascii.N_of_ascii c)) (String.list_ascii_of_string s).

Fixpoint write (v : V8Value) : option (list Z) :=
  match v with
  | V8Undefined => Some [0%Z]
  | V8Null => Some [1%Z]
  | V8Boolean b => Some [2%Z; if b then 1%Z else 0%Z]
  | V8Number n => Some [3%Z; n]
  | V8String s => Some (4%Z :: Z.of_nat (String.length s) :: chars s)
  | V8Function _ | V8MessagePort _ => None
  | V8Array elems =>
      (fix go (l : list V8Value) (acc : list Z) : option (list Z) :=
         match l with
         | [] => Some acc
         | x :: l' =>
             match write x with
             | Some bytes => go l' (acc ++ bytes)
             | None => None
             end
         end) elems [5%Z; Z.of_nat (length elems)]
  | V8Object props =>
      (fix go (l : list (string * V8Value)) (acc : list Z) : option (list Z) :=
         match l with
         | [] => Some acc
         | (k, x) :: l' =>
             match write x with
             | Some bytes =>
                 go l' (acc ++ Z.of_nat (String.length k) :: chars k ++ bytes)
             | None => None
             end
         end) props [6%Z; Z.of_nat (length props)]
  end.

Definition serialize (v : V8Value) : V8Exception + CloneableMessage :=
  match write v with
  | Some bytes => inr (mkCloneable bytes)
  | None => inl (Error "An object could not be cloned.")
  end.

(** Only what the examples read back: a number, else [undefined]. *)
Definition deserialize (m : CloneableMessage) : V8Value :=
  match encoded_message m with
  | [3%Z; n] => V8Number n
  | _ => V8Undefined
  end.

(** The host of end-to-end scenario 2: it adds up an array of numbers. *)
Fixpoint sum_numbers (bytes : list Z) : Z :=
  match bytes with
  | 3%Z :: n :: rest => (n + sum_numbers rest)%Z
  | _ => 0%Z
  end.

Definition reply (internal : bool) (channel : string) (m : CloneableMessage)
    : CloneableMessage :=
  mkCloneable [3%Z; sum_numbers (drop 2 (encoded_message m))].

Definition host : Collaborators :=
  {| serializer := serialize; deserializer := deserialize; sync_reply := reply |}.

Definition portA : V8Value := V8MessagePort 7.
Definition portB : V8Value := V8MessagePort 8.
Definition callback : V8Value := V8Function "cb".

Definition frame_context : ExecutionContext :=
  mkContext (Some (mkWebFrame 1))
            (fun f => Some (mkRenderFrame (mkProvider (frame_id f)))).
Definition frameless_context : ExecutionContext :=
  mkContext None (fun f => Some (mkRenderFrame (mkProvider (frame_id f)))).
End Stub.

(** ** Predicates used in the statements *)

(** [o] wraps a message port that is still entangled in [w]. *)
Definition valid_port (w : World) (o : V8Value) : Prop :=
  exists p, o = V8MessagePort p /\ p ∉ neutered w.

(** The promise and pending-call state, which only [Invoke] and replies
    touch. *)
Definition calls_kept (w w' : World) : Prop :=
  promises w' = promises w /\ next_promise w' = next_promise w
  /\ responders w' = responders w /\ next_request_id w' = next_request_id w.

(** A transfer list the loop accepts in [w]: distinct entangled ports. *)
Definition acceptable_transfer (w : World) (objs : list V8Value)
    (ids : list PortId) : Prop :=
  objs = map V8MessagePort ids /\ NoDup ids /\ forall p, p ∈ ids -> p ∉ neutered w.

Definition is_serialize (a : Action) : bool :=
  match a with ASerialize _ => true | _ => false end.

(** The order the design gives for the port-message operation: every
    extraction from the transfer list comes before the serialization of
    the payload. *)
Definition extraction_precedes_serialization (j : list Action) : Prop :=
  forall i k o v,
    j !! i = Some (ADisentangle o) -> j !! k = Some (ASerialize v) -> i < k.

(** The order [PostMessage] has: the payload is serialized before any
    extraction. *)
Definition serialization_precedes_extraction (j : list Action) : Prop :=
  forall i k o v,
    j !! i = Some (ADisentangle o) -> j !! k = Some (ASerialize v) -> k < i.

Definition invalid_transfer : V8Exception := Error "Invalid value for transfer".

(** What holds of the promise and pending-call state in every world a
    script can reach. *)
Record consistent (w : World) : Prop := mkConsistent {
  responder_issued : forall id cb,
    responders w !! id = Some cb -> id < next_request_id w;
  responder_pending : forall id cb,
    responders w !! id = Some cb ->
    promises w !! bound_promise cb = Some Pending;
  responder_unique : forall id1 id2 cb1 cb2,
    responders w !! id1 = Some cb1 -> responders w !! id2 = Some cb2 ->
    bound_promise cb1 = bound_promise cb2 -> id1 = id2;
  promise_issued : forall p st,
    promises w !! p = Some st -> p < next_promise w;
  resolved_once : NoDup (resolutions w);
  resolved_settled : forall p,
    p ∈ resolutions w -> exists v, promises w !! p = Some (Fulfilled v)
}.

(** ** Module registration *)




(** ** Vocabulary for whole scripts *)

(** A call into the endpoint, as opposed to a reply coming back. *)
Definition is_call (e : Event) : bool :=
  match e with ReplyArrives _ _ => false | _ => true end.

(** The value a call asks the endpoint to send. *)
Definition call_argument (e : Event) : option V8Value :=
  match e with
  | CallSend _ _ a | CallSendSync _ _ a | CallSendTo _ _ _ _ a
  | CallSendToHost _ a | CallInvoke _ _ a | CallPostMessage _ a _ => Some a
  | ReplyArrives _ _ => None
  end.

(** The calls that neither return a promise nor carry ports. *)
Definition is_plain (e : Event) : bool :=
  match e with
  | CallSend _ _ _ | CallSendSync _ _ _ | CallSendTo _ _ _ _ _
  | CallSendToHost _ _ => true
  | _ => false
  end.

(** The collaborator calls each method makes, read off its body: the
    serializer on its own argument, its own method of the mojo interface
    with the flags and channel it was given, and, for [PostMessage] with a
    transfer list, the conversion, the extractions and the one exception
    it throws.  Replies only settle promises. *)
Definition permitted (e : Event) (a : Action) : Prop :=
  match e with
  | CallSend i c v =>
      match a with
      | ASerialize v' => v' = v
      | ARemote (mojom.Message i' c' _) => i' = i /\ c' = c
      | _ => False
      end
  | CallSendSync i c v =>
      match a with
      | ASerialize v' => v' = v
      | ARemote (mojom.MessageSync i' c' _) => i' = i /\ c' = c
      | ADeserialize _ => True
      | _ => False
      end
  | CallSendTo i all id c v =>
      match a with
      | ASerialize v' => v' = v
      | ARemote (mojom.MessageTo i' all' id' c' _) =>
          i' = i /\ all' = all /\ id' = id /\ c' = c
      | _ => False
      end
  | CallSendToHost c v =>
      match a with
      | ASerialize v' => v' = v
      | ARemote (mojom.MessageHost c' _) => c' = c
      | _ => False
      end
  | CallInvoke i c v =>
      match a with
      | ASerialize v' => v' = v
      | ARemote (mojom.Invoke i' c' _ _) => i' = i /\ c' = c
      | _ => False
      end
  | CallPostMessage c v transfer =>
      match a with
      | ASerialize v' => v' = v
      | ARemote (mojom.ReceivePostMessage c' _) => c' = c
      | AConvertTransfer t => transfer = Some t
      | ADisentangle _ => transfer <> None
      | AThrow x => x = Error "Invalid value for transfer" /\ transfer <> None
      | _ => False
      end
  | ReplyArrives _ _ =>
      match a with
      | AResolve _ _ => True
      | _ => False
      end
  end.

(** The promise bound into the callback of a transmitted [Invoke]. *)
Definition invoke_promise (c : mojom.ElectronBrowser) : option PromiseId :=
  match c with
  | mojom.Invoke _ _ _ callback => Some (bound_promise callback)
  | _ => None
  end.

(** The promises bound into the [Invoke] calls handed to the transport so
    far, oldest first. *)
Definition invoked_promises (w : World) : list PromiseId :=
  omap invoke_promise (transmitted w).

Section Wire.
Context `{Collaborators}.

(** What a plain call puts on the wire: its message when the argument
    serializes, nothing otherwise. *)
Definition wire (e : Event) : option mojom.ElectronBrowser :=
  match e with
  | CallSend i c a =>
      match serializer a with
      | inr m => Some (mojom.Message i c m)
      | inl _ => None
      end
  | CallSendSync i c a =>
      match serializer a with
      | inr m => Some (mojom.MessageSync i c m)
      | inl _ => None
      end
  | CallSendTo i all id c a =>
      match serializer a with
      | inr m => Some (mojom.MessageTo i all id c m)
      | inl _ => None
      end
  | CallSendToHost c a =>
      match serializer a with
      | inr m => Some (mojom.MessageHost c m)
      | inl _ => None
      end
  | _ => None
  end.
End Wire.

(** * Properties *)

Ltac run_method :=
  unfold run, result, Send, SendSync, SendTo, SendToHost, Invoke, PostMessage,
         bind, ret, remote, MessageSync, DeserializeV8Value; simpl.

(** End-to-end scenario 2 of the design: [sendSync(false, "add", [2,3])]
    against a host that replies [5]. *)
Example scenario_sendSync :
  result (@SendSync Stub.host false "add" (V8Array [V8Number 2; V8Number 3]))
         empty_world = Some (V8Number 5).
Proof. vm_compute. reflexivity. Qed.

(** End-to-end scenario 3: [postMessage("chan", {"data":1}, [portA])]. *)
Example scenario_postMessage :
  let w := run (@PostMessage Stub.host "chan" (V8Object [("data", V8Number 1)])
                             (Some (V8Array [Stub.portA]))) empty_world in
  (exists m, transmitted w =
     [mojom.ReceivePostMessage "chan" (mkTransferable m [mkChannel 7])])
  /\ elements (neutered w) = [7].
Proof. vm_compute. split; [eexists|]; reflexivity. Qed.


Section Basics.
Context `{Collaborators}.

Lemma transmitted_journal (w w' : World) (tail : list Action) :
  journal w' = journal w ++ tail ->
  transmitted w' = transmitted w ++ omap remote_call tail.
Proof. unfold transmitted. intros ->. apply omap_app. Qed.

(** A failed serialization: the exception is set and nothing else happens. *)
Lemma SerializeV8Value_fails (value : V8Value) (e : V8Exception) (w : World) :
  serializer value = inl e ->
  SerializeV8Value value w = (None, set_exception e (record (ASerialize value) w)).
Proof. intros Hs. unfold SerializeV8Value. rewrite Hs. reflexivity. Qed.

Lemma SerializeV8Value_succeeds (value : V8Value) (m : CloneableMessage) (w : World) :
  serializer value = inr m ->
  SerializeV8Value value w = (Some m, record (ASerialize value) w).
Proof. intros Hs. unfold SerializeV8Value. rewrite Hs. reflexivity. Qed.
End Basics.

(** C1. Fail-closed encoding: when serialization of the supplied value
    fails, each of the six methods returns having called nothing but the
    serializer, so no message is handed to the transport. *)
Theorem serialization_failure_transmits_nothing `{Collaborators}
    (value : V8Value) (e : V8Exception) :
  serializer value = inl e ->
  forall (internal send_to_all : bool) (web_contents_id : Z) (channel : string)
         (transfer : option V8Value) (w : World),
    let returned_early (w' : World) :=
      journal w' = journal w ++ [ASerialize value]
      /\ transmitted w' = transmitted w in
    returned_early (run (Send internal channel value) w)
    /\ returned_early (run (SendSync internal channel value) w)
    /\ returned_early (run (SendTo internal send_to_all web_contents_id
                                   channel value) w)
    /\ returned_early (run (SendToHost channel value) w)
    /\ returned_early (run (Invoke internal channel value) w)
    /\ returned_early (run (PostMessage channel value transfer) w).
Proof.
  intros Hfail internal send_to_all web_contents_id channel transfer w.
  assert (Hq : transmitted (set_exception e (record (ASerialize value) w))
               = transmitted w).
  { unfold transmitted. simpl. rewrite omap_app. simpl. apply app_nil_r. }
  repeat split; run_method; rewrite (SerializeV8Value_fails _ _ _ Hfail);
    simpl; try reflexivity; exact Hq.
Qed.

Lemma serialization_failure_transmits_nothing_witness :
  Stub.serialize Stub.callback = inl (Error "An object could not be cloned.")
  /\ transmitted (run (@Send Stub.host true "ping" Stub.callback) empty_world) = [].
Proof.
  split; [reflexivity |].
  exact (proj2 (proj1 (@serialization_failure_transmits_nothing Stub.host
           Stub.callback (Error "An object could not be cloned.") eq_refl
           true false 0%Z "ping" None empty_world))).
Defined.

(** C3. [sendSync]: when the argument serializes, the method returns the
    deserialization of the reply that the blocking [MessageSync] call
    produced; when it does not, the method returns an empty value and
    nothing has been transmitted. *)
Theorem sendSync_returns_decoded_reply `{Collaborators}
    (internal : bool) (channel : string) (value : V8Value) (w : World) :
  (forall m, serializer value = inr m ->
     result (SendSync internal channel value) w
       = Some (deserializer (sync_reply internal channel m))
     /\ journal (run (SendSync internal channel value) w)
       = journal w ++ [ASerialize value;
                       ARemote (mojom.MessageSync internal channel m);
                       ADeserialize (sync_reply internal channel m)]
     /\ transmitted (run (SendSync internal channel value) w)
       = transmitted w ++ [mojom.MessageSync internal channel m])
  /\ (forall e, serializer value = inl e ->
     result (SendSync internal channel value) w = None
     /\ transmitted (run (SendSync internal channel value) w) = transmitted w).
Proof.
  split.
  - intros m Hok.
    assert (Hj : journal (run (SendSync internal channel value) w)
       = journal w ++ [ASerialize value;
                       ARemote (mojom.MessageSync internal channel m);
                       ADeserialize (sync_reply internal channel m)]).
    { run_method. rewrite (SerializeV8Value_succeeds _ _ _ Hok). simpl.
      rewrite <- !app_assoc. reflexivity. }
    split; [| split; [exact Hj |]].
    + run_method. rewrite (SerializeV8Value_succeeds _ _ _ Hok). reflexivity.
    + rewrite (transmitted_journal _ _ _ Hj). reflexivity.
  - intros e Hfail. split.
    + run_method. rewrite (SerializeV8Value_fails _ _ _ Hfail). reflexivity.
    + rewrite (transmitted_journal w _ [ASerialize value]);
        [apply app_nil_r |].
      run_method. rewrite (SerializeV8Value_fails _ _ _ Hfail). reflexivity.
Qed.

Lemma sendSync_returns_decoded_reply_witness :
  result (@SendSync Stub.host false "add" (V8Array [V8Number 2; V8Number 3]))
         empty_world = Some (V8Number 5)
  /\ result (@SendSync Stub.host false "add" Stub.callback) empty_world = None.
Proof.
  split.
  - exact (proj1 (proj1 (@sendSync_returns_decoded_reply Stub.host false "add"
             (V8Array [V8Number 2; V8Number 3]) empty_world) _ eq_refl)).
  - exact (proj1 (proj2 (@sendSync_returns_decoded_reply Stub.host false "add"
             Stub.callback empty_world) _ eq_refl)).
Defined.

(** C7. Construction requires that the current context has a render frame.
    When it has one, the constructor binds the transport handle to that
    frame's interface registry and the failure branch is not taken; when
    the context has no frame the constructor dies in its [DCHECK].  There
    is no third outcome through which an error could be handed back. *)
Theorem construction_requires_frame (ctx : ExecutionContext) :
  (forall render_frame, GetCurrentRenderFrame ctx = Some render_frame ->
     IPCRenderer_new ctx
       = Constructed (mkIPCRenderer
                        (GetInterface (GetRemoteInterfaces render_frame)))
     /\ IPCRenderer_new ctx <> DcheckFailed)
  /\ (FrameForCurrentContext ctx = None -> GetCurrentRenderFrame ctx = None)
  /\ (GetCurrentRenderFrame ctx = None -> IPCRenderer_new ctx = DcheckFailed)
  /\ (IPCRenderer_new ctx = DcheckFailed
      \/ exists ipc, IPCRenderer_new ctx = Constructed ipc).
Proof.
  unfold IPCRenderer_new, GetCurrentRenderFrame.
  split; [| split; [| split]].
  - intros render_frame Hframe.
    destruct (FrameForCurrentContext ctx) as [frame|]; [| discriminate].
    rewrite Hframe. split; [reflexivity | discriminate].
  - intros ->. reflexivity.
  - destruct (FrameForCurrentContext ctx) as [frame|]; [| reflexivity].
    intros ->. reflexivity.
  - destruct (FrameForCurrentContext ctx) as [frame|]; [| left; reflexivity].
    destruct (FromWebFrame ctx frame); [right; eexists | left]; reflexivity.
Qed.

Lemma construction_requires_frame_witness :
  IPCRenderer_new Stub.frame_context
    = Constructed (mkIPCRenderer (mkPtr (mkProvider 1)))
  /\ IPCRenderer_new Stub.frameless_context = DcheckFailed.
Proof.
  split.
  - exact (proj1 (proj1 (construction_requires_frame Stub.frame_context)
                        (mkRenderFrame (mkProvider 1)) eq_refl)).
  - exact (proj1 (proj2 (proj2 (construction_requires_frame
                                  Stub.frameless_context)))
                 (proj1 (proj2 (construction_requires_frame
                                  Stub.frameless_context)) eq_refl)).
Defined.

(** ** The extraction loop *)

Section Loop.
Context `{Collaborators}.

Lemma Disentangle_valid (p : PortId) (w : World) :
  p ∉ neutered w ->
  DisentangleAndExtractMessagePortChannel (V8MessagePort p) w
  = (Some (mkChannel p),
     set_neutered ({[p]} ∪ neutered w) (record (ADisentangle (V8MessagePort p)) w)).
Proof.
  intros Hp. unfold DisentangleAndExtractMessagePortChannel.
  destruct (decide (p ∈ neutered w)); [contradiction | reflexivity].
Qed.

Lemma Disentangle_invalid (o : V8Value) (w : World) :
  ~ valid_port w o ->
  DisentangleAndExtractMessagePortChannel o w = (None, record (ADisentangle o) w).
Proof.
  intros Hbad. unfold DisentangleAndExtractMessagePortChannel.
  destruct o; try reflexivity.
  destruct (decide (port ∈ neutered w)); [reflexivity |].
  exfalso. apply Hbad. exists port. split; [reflexivity | assumption].
Qed.

(** The loop runs to its end exactly on distinct entangled ports, which it
    neuters one after the other and collects in order. *)
Lemma extract_ports_all (ids : list PortId) :
  forall (acc : list MessagePortChannel) (w : World),
    NoDup ids -> (forall p, p ∈ ids -> p ∉ neutered w) ->
    exists w',
      extract_ports (map V8MessagePort ids) acc w
        = (Some (acc ++ map mkChannel ids), w')
      /\ neutered w' = list_to_set ids ∪ neutered w
      /\ journal w' = journal w ++ map ADisentangle (map V8MessagePort ids)
      /\ pending_exception w' = pending_exception w
      /\ calls_kept w w'.
Proof.
  induction ids as [| p ids IH]; intros acc w Hnd Hfresh.
  - exists w. simpl. unfold ret, calls_kept. rewrite !app_nil_r.
    repeat split. set_solver.
  - apply NoDup_cons in Hnd as [Hp Hnd].
    cbn [map extract_ports]. unfold bind at 1.
    rewrite Disentangle_valid by (apply Hfresh; left).
    destruct (IH (acc ++ [mkChannel p])
                 (set_neutered ({[p]} ∪ neutered w)
                    (record (ADisentangle (V8MessagePort p)) w)) Hnd)
      as (w' & Hrun & Hn & Hj & He & Hk).
    { intros q Hq. simpl. intros [->%elem_of_singleton | Hin]%elem_of_union.
      - contradiction.
      - apply (Hfresh q); [right; exact Hq | exact Hin]. }
    exists w'. rewrite Hrun, Hn, Hj, He. simpl. rewrite <- !app_assoc. simpl.
    repeat split; try apply Hk. set_solver.
Qed.

(** The loop leaves through its [return] at the first object that is not an
    entangled port: the ports before it have been neutered, the rest of the
    list has not been looked at. *)
Lemma extract_ports_stops (pre : list PortId) (bad : V8Value)
    (rest : list V8Value) :
  forall (acc : list MessagePortChannel) (w : World),
    NoDup pre -> (forall p, p ∈ pre -> p ∉ neutered w) ->
    (forall p, bad = V8MessagePort p -> p ∈ neutered w \/ p ∈ pre) ->
    exists w',
      extract_ports (map V8MessagePort pre ++ bad :: rest) acc w = (None, w')
      /\ neutered w' = list_to_set pre ∪ neutered w
      /\ journal w' = journal w
           ++ map ADisentangle (map V8MessagePort pre ++ [bad])
           ++ [AThrow (Error "Invalid value for transfer")]
      /\ pending_exception w' = Some (Error "Invalid value for transfer")
      /\ calls_kept w w'.
Proof.
  induction pre as [| p pre IH]; intros acc w Hnd Hfresh Hbad.
  - cbn [map app extract_ports]. unfold bind at 1.
    rewrite Disentangle_invalid.
    + eexists. split; [reflexivity |]. simpl. unfold calls_kept. simpl.
      rewrite <- !app_assoc. repeat split. set_solver.
    + intros (q & -> & Hq). destruct (Hbad q eq_refl) as [Hin | Hin].
      * contradiction.
      * inversion Hin.
  - apply NoDup_cons in Hnd as [Hp Hnd].
    cbn [map app extract_ports]. unfold bind at 1.
    rewrite Disentangle_valid by (apply Hfresh; left).
    destruct (IH (acc ++ [mkChannel p])
                 (set_neutered ({[p]} ∪ neutered w)
                    (record (ADisentangle (V8MessagePort p)) w)) Hnd)
      as (w' & Hrun & Hn & Hj & He & Hk).
    { intros q Hq. simpl. intros [->%elem_of_singleton | Hin]%elem_of_union.
      - contradiction.
      - apply (Hfresh q); [right; exact Hq | exact Hin]. }
    { intros q Hq. simpl. destruct (Hbad q Hq) as [Hin | Hin].
      - left. set_solver.
      - apply elem_of_cons in Hin as [-> | Hin]; [left; set_solver | right; exact Hin]. }
    exists w'. rewrite Hrun, Hn, Hj, He. simpl. rewrite <- !app_assoc. simpl.
    repeat split; try apply Hk. set_solver.
Qed.

(** Every list of objects is of one of the two shapes above. *)
Lemma transfer_list_cases (objs : list V8Value) :
  forall (s : gset PortId),
    (exists ids, objs = map V8MessagePort ids /\ NoDup ids
                 /\ forall p, p ∈ ids -> p ∉ s)
    \/ (exists pre bad rest,
          objs = map V8MessagePort pre ++ bad :: rest /\ NoDup pre
          /\ (forall p, p ∈ pre -> p ∉ s)
          /\ forall p, bad = V8MessagePort p -> p ∈ s \/ p ∈ pre).
Proof.
  induction objs as [| o objs IH]; intros s.
  - left. exists []. repeat split; [constructor | intros p Hp; inversion Hp].
  - assert (Hstop : (forall p, o = V8MessagePort p -> p ∈ s) ->
        exists pre bad rest,
          o :: objs = map V8MessagePort pre ++ bad :: rest /\ NoDup pre
          /\ (forall p, p ∈ pre -> p ∉ s)
          /\ forall p, bad = V8MessagePort p -> p ∈ s \/ p ∈ pre).
    { intros Ho. exists [], o, objs. repeat split.
      - constructor.
      - intros p Hp. inversion Hp.
      - intros p Hp. left. apply Ho, Hp. }
    destruct o as [| | | | | | p | |]; try (right; apply Hstop; discriminate).
    destruct (decide (p ∈ s)) as [Hin | Hout].
    { right. apply Hstop. intros q [= <-]. exact Hin. }
    destruct (IH ({[p]} ∪ s)) as [(ids & -> & Hnd & Hfresh)
                                 | (pre & bad & rest & -> & Hnd & Hfresh & Hbad)].
    + left. exists (p :: ids). repeat split.
      * apply NoDup_cons. split; [| exact Hnd].
        intros Hp. apply (Hfresh p Hp). set_solver.
      * intros q [-> | Hq]%elem_of_cons; [exact Hout |].
        intros Hqs. apply (Hfresh q Hq). set_solver.
    + right. exists (p :: pre), bad, rest. repeat split.
      * apply NoDup_cons. split; [| exact Hnd].
        intros Hp. apply (Hfresh p Hp). set_solver.
      * intros q [-> | Hq]%elem_of_cons; [exact Hout |].
        intros Hqs. apply (Hfresh q Hq). set_solver.
      * intros q Hq. destruct (Hbad q Hq) as [Hin | Hin].
        -- apply elem_of_union in Hin as [->%elem_of_singleton | Hin].
           ++ right. left.
           ++ left. exact Hin.
        -- right. right. exact Hin.
Qed.
End Loop.

(** ** [PostMessage] *)

Section PostMessageFacts.
Context `{Collaborators}.

(** [PostMessage] once the payload has been serialized. *)
Lemma PostMessage_serialized (channel : string) (value : V8Value)
    (transfer : option V8Value) (m : CloneableMessage) (w : World) :
  serializer value = inr m ->
  run (PostMessage channel value transfer) w =
  let w1 := record (ASerialize value) w in
  match transfer with
  | None =>
      record (ARemote (mojom.ReceivePostMessage channel (mkTransferable m []))) w1
  | Some t =>
      let w2 := record (AConvertTransfer t) w1 in
      match to_objects t with
      | None => set_exception invalid_transfer (record (AThrow invalid_transfer) w2)
      | Some objs =>
          match extract_ports objs [] w2 with
          | (None, w3) => w3
          | (Some ports, w3) =>
              record (ARemote (mojom.ReceivePostMessage channel
                                 (mkTransferable m ports))) w3
          end
      end
  end.
Proof.
  intros Hok. unfold run, PostMessage, bind.
  rewrite (SerializeV8Value_succeeds _ _ _ Hok).
  destruct transfer as [t |]; [| reflexivity].
  unfold ConvertFromV8. destruct (to_objects t) as [objs |]; [| reflexivity].
  destruct (extract_ports objs [] _) as [[ports |] w3]; reflexivity.
Qed.

(** The transfer list is accepted: one message carrying every port. *)
Lemma PostMessage_accepted (channel : string) (value t : V8Value)
    (m : CloneableMessage) (objs : list V8Value) (ids : list PortId) (w : World) :
  serializer value = inr m -> to_objects t = Some objs ->
  acceptable_transfer w objs ids ->
  let w' := run (PostMessage channel value (Some t)) w in
  journal w' = journal w
     ++ ASerialize value :: AConvertTransfer t :: map ADisentangle objs
     ++ [ARemote (mojom.ReceivePostMessage channel
                    (mkTransferable m (map mkChannel ids)))]
  /\ neutered w' = list_to_set ids ∪ neutered w
  /\ pending_exception w' = pending_exception w
  /\ calls_kept w w'.
Proof.
  intros Hok Hconv (-> & Hnd & Hfresh). cbv zeta.
  rewrite (PostMessage_serialized _ _ _ _ _ Hok). cbv zeta. rewrite Hconv.
  destruct (extract_ports_all ids []
              (record (AConvertTransfer t) (record (ASerialize value) w)) Hnd)
    as (w3 & -> & Hn & Hj & He & Hk); [exact Hfresh |].
  simpl. rewrite Hj, Hn, He. simpl. rewrite <- !app_assoc. simpl.
  repeat split; apply Hk.
Qed.

(** The transfer list is rejected inside the loop: no message, the ports
    in front of the rejected object are neutered. *)
Lemma PostMessage_rejected (channel : string) (value t : V8Value)
    (m : CloneableMessage) (pre : list PortId) (bad : V8Value)
    (rest : list V8Value) (w : World) :
  serializer value = inr m ->
  to_objects t = Some (map V8MessagePort pre ++ bad :: rest) ->
  NoDup pre -> (forall p, p ∈ pre -> p ∉ neutered w) ->
  (forall p, bad = V8MessagePort p -> p ∈ neutered w \/ p ∈ pre) ->
  let w' := run (PostMessage channel value (Some t)) w in
  journal w' = journal w
     ++ ASerialize value :: AConvertTransfer t
     :: map ADisentangle (map V8MessagePort pre ++ [bad])
     ++ [AThrow invalid_transfer]
  /\ neutered w' = list_to_set pre ∪ neutered w
  /\ pending_exception w' = Some invalid_transfer
  /\ calls_kept w w'.
Proof.
  intros Hok Hconv Hnd Hfresh Hbad. cbv zeta.
  rewrite (PostMessage_serialized _ _ _ _ _ Hok). cbv zeta. rewrite Hconv.
  destruct (extract_ports_stops pre bad rest []
              (record (AConvertTransfer t) (record (ASerialize value) w)) Hnd)
    as (w3 & -> & Hn & Hj & He & Hk); [exact Hfresh | exact Hbad |].
  rewrite Hj, Hn, He. simpl. rewrite <- !app_assoc. simpl.
  repeat split; apply Hk.
Qed.

(** The transfer argument is not an array of objects: no message and the
    loop is not entered. *)
Lemma PostMessage_unconvertible (channel : string) (value t : V8Value)
    (m : CloneableMessage) (w : World) :
  serializer value = inr m -> to_objects t = None ->
  let w' := run (PostMessage channel value (Some t)) w in
  journal w' = journal w
     ++ [ASerialize value; AConvertTransfer t; AThrow invalid_transfer]
  /\ neutered w' = neutered w
  /\ pending_exception w' = Some invalid_transfer
  /\ calls_kept w w'.
Proof.
  intros Hok Hconv. cbv zeta.
  rewrite (PostMessage_serialized _ _ _ _ _ Hok). cbv zeta. rewrite Hconv.
  simpl. rewrite <- !app_assoc. unfold calls_kept. simpl. repeat split.
Qed.
End PostMessageFacts.

Section PostMessageJournal.
Context `{Collaborators}.

Lemma omap_remote_Disentangle (objs : list V8Value) :
  omap remote_call (map ADisentangle objs) = [].
Proof. induction objs as [| o objs IH]; [reflexivity | exact IH]. Qed.

Lemma omap_disentangled_Disentangle (objs : list V8Value) :
  omap disentangled (map ADisentangle objs) = objs.
Proof.
  induction objs as [| o objs IH]; [reflexivity |].
  cbn. f_equal. exact IH.
Qed.

Lemma Forall_Disentangle (P : Action -> Prop) (objs : list V8Value) :
  (forall o, P (ADisentangle o)) -> Forall P (map ADisentangle objs).
Proof. intros HP. apply Forall_forall. intros a (o & -> & _)%list_elem_of_fmap. apply HP. Qed.

(** What one call of [PostMessage] appends to the journal: the
    serialization of the payload, then everything else; the promise and
    pending-call state is left alone. *)
Lemma PostMessage_journal (channel : string) (value : V8Value)
    (transfer : option V8Value) (w : World) :
  exists tail,
    journal (run (PostMessage channel value transfer) w)
      = journal w ++ ASerialize value :: tail
    /\ Forall (fun a => is_serialize a = false /\ resolved_promise a = None) tail
    /\ (forall e, serializer value = inl e -> tail = [])
    /\ calls_kept w (run (PostMessage channel value transfer) w).
Proof.
  destruct (serializer value) as [e | m] eqn:Hs.
  { exists []. unfold run, PostMessage, bind.
    rewrite (SerializeV8Value_fails _ _ _ Hs). simpl.
    unfold calls_kept. simpl. repeat split. constructor. }
  destruct transfer as [t |].
  2:{ eexists. rewrite (PostMessage_serialized _ _ _ _ _ Hs). simpl.
      rewrite <- app_assoc. unfold calls_kept. simpl.
      repeat split; [| discriminate]. repeat constructor. }
  destruct (to_objects t) as [objs |] eqn:Hconv.
  2:{ destruct (PostMessage_unconvertible channel value t m w Hs Hconv)
        as (Hj & _ & _ & Hk).
      eexists. split; [exact Hj |]. split; [| split; [discriminate | exact Hk]].
      repeat constructor. }
  destruct (transfer_list_cases objs (neutered w))
    as [(ids & Hobjs & Hnd & Hfresh)
       | (pre & bad & rest & Hobjs & Hnd & Hfresh & Hbad)].
  - destruct (PostMessage_accepted channel value t m objs ids w Hs Hconv)
      as (Hj & _ & _ & Hk); [repeat split; assumption |].
    eexists. split; [exact Hj |]. split; [| split; [discriminate | exact Hk]].
    constructor; [split; reflexivity |]. apply Forall_app. split.
    + apply Forall_Disentangle. intros o. split; reflexivity.
    + repeat constructor.
  - subst objs.
    destruct (PostMessage_rejected channel value t m pre bad rest w Hs Hconv
                Hnd Hfresh Hbad) as (Hj & _ & _ & Hk).
    eexists. split; [exact Hj |]. split; [| split; [discriminate | exact Hk]].
    constructor; [split; reflexivity |]. apply Forall_app. split.
    + apply Forall_Disentangle. intros o. split; reflexivity.
    + repeat constructor.
Qed.
End PostMessageJournal.

(** C2 (as amended). In [postMessage] the payload is serialized first: the
    call's first collaborator call is [SerializeV8Value] on the message
    value, no second serialization follows, and every port extraction the
    call performs comes after it; when serialization fails the call ends
    there and no port is extracted. *)
Theorem postMessage_serializes_before_extraction `{Collaborators}
    (channel : string) (value : V8Value) (transfer : option V8Value)
    (w : World) :
  let w' := run (PostMessage channel value transfer) w in
  exists tail,
    journal w' = journal w ++ ASerialize value :: tail
    /\ Forall (fun a => is_serialize a = false) tail
    /\ serialization_precedes_extraction (drop (length (journal w)) (journal w'))
    /\ ((exists e, serializer value = inl e) ->
        tail = [] /\ neutered w' = neutered w).
Proof.
  cbv zeta.
  destruct (PostMessage_journal channel value transfer w)
    as (tail & Hj & Hquiet & Hfail & _).
  assert (Hser : Forall (fun a => is_serialize a = false) tail).
  { eapply Forall_impl; [exact Hquiet |]. intros a [Ha _]. exact Ha. }
  exists tail. split; [exact Hj |]. split; [exact Hser |]. split.
  - rewrite Hj, drop_app_length. intros i k o v Hi Hk.
    destruct k as [| k].
    + destruct i as [| i]; [discriminate Hi | lia].
    + exfalso. simpl in Hk. apply list_elem_of_lookup_2 in Hk.
      rewrite Forall_forall in Hser. specialize (Hser _ Hk). discriminate Hser.
  - intros [e He]. split; [exact (Hfail e He) |].
    unfold run, PostMessage, bind. rewrite (SerializeV8Value_fails _ _ _ He).
    reflexivity.
Qed.

Lemma postMessage_serializes_before_extraction_witness :
  let w' := run (@PostMessage Stub.host "chan" Stub.callback
                   (Some (V8Array [Stub.portA]))) empty_world in
  journal w' = [ASerialize Stub.callback] /\ neutered w' = ∅.
Proof.
  cbv zeta.
  destruct (@postMessage_serializes_before_extraction Stub.host "chan"
              Stub.callback (Some (V8Array [Stub.portA])) empty_world)
    as (tail & Hj & _ & _ & Hfail).
  destruct Hfail as [Htail Hn].
  { exists (Error "An object could not be cloned."). reflexivity. }
  split; [| exact Hn]. rewrite Hj, Htail. reflexivity.
Defined.

(** C2 (as stated) fails on end-to-end scenario 3: in
    [postMessage("chan", {"data":1}, [portA])] the extraction of [portA] is
    the third collaborator call, the serialization of the payload the first. *)
Lemma extraction_does_not_precede_serialization :
  let j := journal (run (@PostMessage Stub.host "chan"
                           (V8Object [("data", V8Number 1)])
                           (Some (V8Array [Stub.portA]))) empty_world) in
  j !! 0 = Some (ASerialize (V8Object [("data", V8Number 1)]))
  /\ j !! 2 = Some (ADisentangle Stub.portA)
  /\ ~ extraction_precedes_serialization j.
Proof.
  cbv zeta. split; [reflexivity |]. split; [reflexivity |].
  intros Hclaim.
  specialize (Hclaim 2 0 Stub.portA (V8Object [("data", V8Number 1)])
                eq_refl eq_refl).
  lia.
Qed.

(** C5 (as amended). When the message value serializes and the transfer
    list contains a value that is not a valid port, [postMessage] throws
    "Invalid value for transfer" and sends nothing.  For every transfer
    list, either the message is sent with all nominated ports, in order,
    or no message is sent. *)
Theorem invalid_transfer_target_aborts_send `{Collaborators}
    (channel : string) (value : V8Value) (m : CloneableMessage)
    (elems : list V8Value) (w : World) :
  serializer value = inr m ->
  let w' := run (PostMessage channel value (Some (V8Array elems))) w in
  ((exists x, x ∈ elems /\ ~ valid_port w x) ->
     pending_exception w' = Some (Error "Invalid value for transfer")
     /\ transmitted w' = transmitted w)
  /\ (transmitted w' = transmitted w
      \/ exists ids, elems = map V8MessagePort ids
           /\ transmitted w' = transmitted w
                ++ [mojom.ReceivePostMessage channel
                      (mkTransferable m (map mkChannel ids))]).
Proof.
  intros Hok w'. subst w'.
  destruct (to_objects (V8Array elems)) as [objs |] eqn:Hconv.
  2:{ destruct (PostMessage_unconvertible channel value _ m w Hok Hconv)
        as (Hj & _ & He & _).
      assert (Ht := transmitted_journal _ _ _ Hj). simpl in Ht.
      rewrite app_nil_r in Ht.
      split; [intros _; split; [exact He | exact Ht] | left; exact Ht]. }
  assert (objs = elems) as ->.
  { simpl in Hconv. destruct (forallb IsObject elems); congruence. }
  destruct (transfer_list_cases elems (neutered w))
    as [(ids & Hobjs & Hnd & Hfresh)
       | (pre & bad & rest & Hobjs & Hnd & Hfresh & Hbad)].
  - destruct (PostMessage_accepted channel value _ m elems ids w Hok Hconv)
      as (Hj & _ & _ & _); [repeat split; assumption |].
    assert (Ht := transmitted_journal _ _ _ Hj). simpl in Ht.
    rewrite omap_app, omap_remote_Disentangle in Ht. simpl in Ht.
    split.
    + intros (x & Hx & Hinvalid). exfalso. apply Hinvalid.
      rewrite Hobjs in Hx. apply list_elem_of_fmap in Hx as (p & -> & Hp).
      exists p. split; [reflexivity | apply Hfresh, Hp].
    + right. exists ids. split; [exact Hobjs | exact Ht].
  - subst elems.
    destruct (PostMessage_rejected channel value _ m pre bad rest w Hok Hconv
                Hnd Hfresh Hbad) as (Hj & _ & He & _).
    assert (Ht := transmitted_journal _ _ _ Hj). simpl in Ht.
    rewrite omap_app, omap_remote_Disentangle in Ht. simpl in Ht.
    rewrite app_nil_r in Ht.
    split; [intros _; split; [exact He | exact Ht] | left; exact Ht].
Qed.

Lemma invalid_transfer_target_aborts_send_witness :
  let w' := run (@PostMessage Stub.host "chan" (V8Number 1)
                   (Some (V8Array [Stub.portA; V8Object []]))) empty_world in
  pending_exception w' = Some (Error "Invalid value for transfer")
  /\ transmitted w' = [].
Proof.
  apply (proj1 (@invalid_transfer_target_aborts_send Stub.host "chan"
                  (V8Number 1) (mkCloneable [3%Z; 1%Z])
                  [Stub.portA; V8Object []] empty_world eq_refl)).
  exists (V8Object []). split.
  - right. left.
  - intros (p & Hp & _). discriminate Hp.
Defined.

(** C5 (as stated) fails when the message value does not serialize: the
    transfer list [[{}]] holds a value that is not a port, yet
    [postMessage] returns after the failed serialization with the
    serializer's exception and never throws "Invalid value for transfer". *)
Lemma invalid_target_unreported_after_failed_serialization :
  let w' := run (@PostMessage Stub.host "chan" Stub.callback
                   (Some (V8Array [V8Object []]))) empty_world in
  ~ valid_port empty_world (V8Object [])
  /\ journal w' = [ASerialize Stub.callback]
  /\ pending_exception w' = Some (Error "An object could not be cloned.")
  /\ pending_exception w' <> Some (Error "Invalid value for transfer").
Proof.
  cbv zeta. split; [| split; [| split]].
  - intros (p & Hp & _). discriminate Hp.
  - reflexivity.
  - reflexivity.
  - discriminate.
Qed.

(** C9 (as amended). When the message value serializes and the transfer
    list converts to a sequence of objects, the loop extracts from left to
    right and neuters each port as it is taken: if the first [k-1] objects
    are distinct entangled ports and the [k]-th is not a valid port, the
    call ends with exactly those [k-1] ports neutered, "Invalid value for
    transfer" thrown, no message sent and the rest of the list untouched. *)
Theorem ports_before_invalid_target_are_detached `{Collaborators}
    (channel : string) (value t : V8Value) (m : CloneableMessage)
    (pre : list PortId) (bad : V8Value) (rest : list V8Value) (w : World) :
  serializer value = inr m ->
  to_objects t = Some (map V8MessagePort pre ++ bad :: rest) ->
  NoDup pre -> (forall p, p ∈ pre -> p ∉ neutered w) ->
  (forall p, bad = V8MessagePort p -> p ∈ neutered w \/ p ∈ pre) ->
  let w' := run (PostMessage channel value (Some t)) w in
  (forall p, p ∈ pre -> p ∈ neutered w')
  /\ neutered w' = list_to_set pre ∪ neutered w
  /\ omap disentangled (journal w')
     = omap disentangled (journal w) ++ map V8MessagePort pre ++ [bad]
  /\ pending_exception w' = Some (Error "Invalid value for transfer")
  /\ transmitted w' = transmitted w.
Proof.
  intros Hok Hconv Hnd Hfresh Hbad w'. subst w'.
  destruct (PostMessage_rejected channel value t m pre bad rest w Hok Hconv
              Hnd Hfresh Hbad) as (Hj & Hn & He & _).
  split; [| split; [exact Hn | split; [| split; [exact He |]]]].
  - intros p Hp. rewrite Hn. set_solver.
  - rewrite Hj, omap_app. simpl. rewrite omap_app, omap_disentangled_Disentangle.
    simpl. rewrite app_nil_r. reflexivity.
  - rewrite (transmitted_journal _ _ _ Hj). simpl.
    rewrite omap_app, omap_remote_Disentangle. apply app_nil_r.
Qed.

Lemma ports_before_invalid_target_are_detached_witness :
  let w' := run (@PostMessage Stub.host "chan" (V8Number 1)
                   (Some (V8Array [Stub.portA; V8Object []; Stub.portB])))
                empty_world in
  (forall p, p ∈ [7] -> p ∈ neutered w')
  /\ neutered w' = list_to_set [7] ∪ ∅
  /\ omap disentangled (journal w') = [] ++ [Stub.portA] ++ [V8Object []]
  /\ pending_exception w' = Some (Error "Invalid value for transfer")
  /\ transmitted w' = [].
Proof.
  apply (@ports_before_invalid_target_are_detached Stub.host "chan"
           (V8Number 1) (V8Array [Stub.portA; V8Object []; Stub.portB])
           (mkCloneable [3%Z; 1%Z]) [7] (V8Object []) [Stub.portB] empty_world).
  - reflexivity.
  - reflexivity.
  - apply NoDup_singleton.
  - intros p _. apply not_elem_of_empty.
  - intros p Hp. discriminate Hp.
Defined.

(** C9 (as stated) fails when the invalid value is not an object: in
    [postMessage("chan", 1, [portA, 42])] the second nominated value is
    invalid, but the list is refused as a whole before the loop and
    [portA] stays entangled. *)
Lemma port_before_non_object_stays_entangled :
  let w' := run (@PostMessage Stub.host "chan" (V8Number 1)
                   (Some (V8Array [Stub.portA; V8Number 42]))) empty_world in
  valid_port empty_world Stub.portA
  /\ ~ valid_port empty_world (V8Number 42)
  /\ (7 ∉ neutered w')
  /\ omap disentangled (journal w') = []
  /\ transmitted w' = [].
Proof.
  cbv zeta. split; [| split; [| split; [| split]]].
  - exists 7. split; [reflexivity | apply not_elem_of_empty].
  - intros (p & Hp & _). discriminate Hp.
  - vm_compute. intros Hin. discriminate Hin.
  - reflexivity.
  - reflexivity.
Qed.

(** C10 (as amended). When the message value serializes and the
    [transferList] argument is present but does not convert to a sequence
    of objects, [postMessage] throws "Invalid value for transfer" straight
    after the failed conversion: no entry is examined, no port is
    extracted and no message is sent. *)
Theorem unconvertible_transfer_list_aborts_send `{Collaborators}
    (channel : string) (value t : V8Value) (m : CloneableMessage) (w : World) :
  serializer value = inr m ->
  to_objects t = None ->
  let w' := run (PostMessage channel value (Some t)) w in
  journal w' = journal w
     ++ [ASerialize value; AConvertTransfer t;
         AThrow (Error "Invalid value for transfer")]
  /\ pending_exception w' = Some (Error "Invalid value for transfer")
  /\ transmitted w' = transmitted w
  /\ neutered w' = neutered w
  /\ omap disentangled (journal w') = omap disentangled (journal w).
Proof.
  intros Hok Hconv w'. subst w'.
  destruct (PostMessage_unconvertible channel value t m w Hok Hconv)
    as (Hj & Hn & He & _).
  split; [exact Hj |]. split; [exact He |]. split; [| split; [exact Hn |]].
  - rewrite (transmitted_journal _ _ _ Hj). apply app_nil_r.
  - rewrite Hj, omap_app. apply app_nil_r.
Qed.

Lemma unconvertible_transfer_list_aborts_send_witness :
  let w' := run (@PostMessage Stub.host "chan" (V8Number 1)
                   (Some (V8Number 42))) empty_world in
  journal w' = [] ++ [ASerialize (V8Number 1); AConvertTransfer (V8Number 42);
                      AThrow (Error "Invalid value for transfer")]
  /\ pending_exception w' = Some (Error "Invalid value for transfer")
  /\ transmitted w' = []
  /\ neutered w' = ∅
  /\ omap disentangled (journal w') = [].
Proof.
  exact (@unconvertible_transfer_list_aborts_send Stub.host "chan" (V8Number 1)
           (V8Number 42) (mkCloneable [3%Z; 1%Z]) empty_world eq_refl eq_refl).
Defined.

(** C10 (as stated) fails when the message value does not serialize:
    [postMessage("chan", function, 42)] has a transfer argument that is not
    a sequence of objects, but the method returns after the failed
    serialization and never throws "Invalid value for transfer". *)
Lemma unconvertible_transfer_unreported_after_failed_serialization :
  let w' := run (@PostMessage Stub.host "chan" Stub.callback
                   (Some (V8Number 42))) empty_world in
  to_objects (V8Number 42) = None
  /\ journal w' = [ASerialize Stub.callback]
  /\ pending_exception w' = Some (Error "An object could not be cloned.")
  /\ pending_exception w' <> Some (Error "Invalid value for transfer").
Proof.
  cbv zeta. split; [| split; [| split]]; try reflexivity. discriminate.
Qed.

(** C8. Errors surface at the call: after a call whose argument fails to
    serialize, the serializer's exception is pending in the isolate (and
    [sendSync] and [invoke] hand back an empty handle); after a
    [postMessage] whose transfer argument is refused, either by the
    conversion or inside the loop, an exception is pending as well: the
    serializer's if the payload did not serialize, "Invalid value for
    transfer" otherwise.  In every such case nothing was transmitted. *)
Theorem failures_are_thrown_at_the_call `{Collaborators}
    (internal send_to_all : bool) (web_contents_id : Z) (channel : string)
    (value : V8Value) (transfer : option V8Value) (w : World) :
  (forall e, serializer value = inl e ->
     let thrown (w' : World) :=
       pending_exception w' = Some e /\ transmitted w' = transmitted w in
     thrown (run (Send internal channel value) w)
     /\ thrown (run (SendSync internal channel value) w)
     /\ result (SendSync internal channel value) w = None
     /\ thrown (run (SendTo internal send_to_all web_contents_id
                            channel value) w)
     /\ thrown (run (SendToHost channel value) w)
     /\ thrown (run (Invoke internal channel value) w)
     /\ result (Invoke internal channel value) w = None
     /\ thrown (run (PostMessage channel value transfer) w))
  /\ (forall t, transfer = Some t ->
      (to_objects t = None
       \/ exists objs, to_objects t = Some objs
            /\ ~ exists ids, acceptable_transfer w objs ids) ->
      exists e,
        pending_exception (run (PostMessage channel value transfer) w) = Some e
        /\ (serializer value = inl e
            \/ (exists m, serializer value = inr m)
               /\ e = Error "Invalid value for transfer")
        /\ transmitted (run (PostMessage channel value transfer) w)
           = transmitted w).
Proof.
  assert (Hfailed : forall e,
            transmitted (set_exception e (record (ASerialize value) w))
            = transmitted w).
  { intros e. unfold transmitted. simpl. rewrite omap_app. simpl.
    apply app_nil_r. }
  split.
  - intros e Hfail. cbv zeta.
    repeat split; run_method; rewrite (SerializeV8Value_fails _ _ _ Hfail);
      simpl; try reflexivity; exact (Hfailed e).
  - intros t -> Hrefused.
    destruct (serializer value) as [e | m] eqn:Hok.
    { exists e. unfold run, PostMessage, bind.
      rewrite (SerializeV8Value_fails _ _ _ Hok). simpl.
      split; [reflexivity |]. split; [left; reflexivity |].
      exact (Hfailed e). }
    exists (Error "Invalid value for transfer").
    assert (Hboth :
      pending_exception (run (PostMessage channel value (Some t)) w)
        = Some (Error "Invalid value for transfer")
      /\ transmitted (run (PostMessage channel value (Some t)) w)
        = transmitted w).
    { destruct Hrefused as [Hconv | (objs & Hconv & Hrefused)].
      - destruct (PostMessage_unconvertible channel value t m w Hok Hconv)
          as (Hj & _ & He & _).
        split; [exact He |].
        rewrite (transmitted_journal _ _ _ Hj). apply app_nil_r.
      - destruct (transfer_list_cases objs (neutered w))
          as [(ids & Hobjs & Hnd & Hfresh)
             | (pre & bad & rest & -> & Hnd & Hfresh & Hbad)].
        { exfalso. apply Hrefused. exists ids. repeat split; assumption. }
        destruct (PostMessage_rejected channel value t m pre bad rest w Hok
                    Hconv Hnd Hfresh Hbad) as (Hj & _ & He & _).
        split; [exact He |].
        rewrite (transmitted_journal _ _ _ Hj). simpl.
        rewrite omap_app, omap_remote_Disentangle. apply app_nil_r. }
    destruct Hboth as [He Ht].
    split; [exact He |]. split; [| exact Ht].
    right. split; [exists m |]; reflexivity.
Qed.

Lemma failures_are_thrown_at_the_call_witness :
  (pending_exception (run (@Invoke Stub.host false "ask" Stub.callback)
                          empty_world)
     = Some (Error "An object could not be cloned.")
   /\ result (@Invoke Stub.host false "ask" Stub.callback) empty_world = None)
  /\ exists e,
       pending_exception
         (run (@PostMessage Stub.host "chan" (V8Number 1)
                 (Some (V8Array [Stub.portA; Stub.portA]))) empty_world)
       = Some e.
Proof.
  split.
  - pose proof (proj1 (@failures_are_thrown_at_the_call Stub.host false false
                  0%Z "ask" Stub.callback None empty_world) _ eq_refl) as Hall.
    cbv zeta in Hall.
    destruct Hall as (_ & _ & _ & _ & _ & [Hthrown _] & Hempty & _).
    split; [exact Hthrown | exact Hempty].
  - destruct (proj2 (@failures_are_thrown_at_the_call Stub.host false false
              0%Z "chan" (V8Number 1) (Some (V8Array [Stub.portA; Stub.portA]))
              empty_world) (V8Array [Stub.portA; Stub.portA]) eq_refl)
      as (e & He & _).
    + right. exists [Stub.portA; Stub.portA]. split; [reflexivity |].
      intros (ids & Hobjs & Hnd & _).
      destruct ids as [| p [| q [| r ids]]]; try discriminate Hobjs.
      injection Hobjs as <- <-.
      apply NoDup_cons in Hnd as [Hp _]. apply Hp. left.
    + exists e. exact He.
Defined.

(** ** The pending-call table *)

Section Table.
Context `{Collaborators}.

Lemma consistent_empty : consistent empty_world.
Proof.
  split; simpl; try (intros; simplify_map_eq; fail).
  - constructor.
  - intros p Hp. inversion Hp.
Qed.

Lemma consistent_kept (w w' : World) :
  calls_kept w w' -> resolutions w' = resolutions w ->
  consistent w -> consistent w'.
Proof.
  intros (Hp & Hnp & Hr & Hnr) Hres [C1 C2 C3 C4 C5 C6].
  split; rewrite ?Hp, ?Hnp, ?Hr, ?Hnr, ?Hres; assumption.
Qed.

Lemma resolutions_journal (w w' : World) (tail : list Action) :
  journal w' = journal w ++ tail ->
  resolutions w' = resolutions w ++ omap resolved_promise tail.
Proof. unfold resolutions. intros ->. apply omap_app. Qed.

(** A call whose argument fails to serialize leaves the table alone. *)
Lemma failed_serialization_frame (value : V8Value) (e : V8Exception) (w : World) :
  let w' := set_exception e (record (ASerialize value) w) in
  calls_kept w w' /\ resolutions w' = resolutions w.
Proof.
  cbv zeta. split; [repeat split |].
  rewrite (resolutions_journal w _ [ASerialize value]) by reflexivity.
  apply app_nil_r.
Qed.

(** The four one-way methods and [SendSync] never touch the table. *)
Lemma one_way_frame (e : Event) (w : World) :
  match e with
  | CallInvoke _ _ _ | ReplyArrives _ _ => False
  | _ => True
  end ->
  calls_kept w (step e w) /\ resolutions (step e w) = resolutions w.
Proof.
  destruct e as [i c a | i c a | i all id c a | c a | i c a | c v t | id r];
    try contradiction; intros _; simpl.
  5:{ destruct (PostMessage_journal c v t w) as (tail & Hj & Hquiet & _ & Hk).
      split; [exact Hk |].
      rewrite (resolutions_journal _ _ _ Hj).
      assert (Hnil : omap resolved_promise (ASerialize v :: tail) = []).
      { clear Hj. cbn.
        induction Hquiet as [| a tail [_ Ha] _ IH]; [reflexivity |].
        cbn. rewrite Ha. exact IH. }
      rewrite Hnil. apply app_nil_r. }
  all: run_method; unfold SerializeV8Value;
    destruct (serializer a) as [err | m]; simpl;
    [apply failed_serialization_frame |];
    (split; [repeat split |]);
    unfold resolutions; simpl; rewrite !omap_app; simpl;
    rewrite ?app_nil_r; reflexivity.
Qed.

(** [Invoke] on an argument that serializes. *)
Lemma Invoke_serialized (internal : bool) (channel : string) (value : V8Value)
    (m : CloneableMessage) (w : World) :
  serializer value = inr m ->
  Invoke internal channel value w =
  (Some (next_promise w),
   set_responders
     (<[next_request_id w := mkCallback (next_promise w)]> (responders w))
     (S (next_request_id w))
     (record (ARemote (mojom.Invoke internal channel m
                         (mkCallback (next_promise w))))
        (set_promises (<[next_promise w := Pending]> (promises w))
           (S (next_promise w)) (record (ASerialize value) w)))).
Proof.
  intros Hok. unfold Invoke, bind.
  rewrite (SerializeV8Value_succeeds _ _ _ Hok). reflexivity.
Qed.

Lemma Invoke_consistent (internal : bool) (channel : string) (value : V8Value)
    (w : World) :
  consistent w -> consistent (run (Invoke internal channel value) w).
Proof.
  intros Hc. destruct (serializer value) as [e | m] eqn:Hs.
  { unfold run, Invoke, bind. rewrite (SerializeV8Value_fails _ _ _ Hs). simpl.
    destruct (failed_serialization_frame value e w) as [Hk Hres].
    exact (consistent_kept _ _ Hk Hres Hc). }
  unfold run. rewrite (Invoke_serialized _ _ _ _ _ Hs). simpl.
  destruct Hc as [C1 C2 C3 C4 C5 C6].
  assert (Hres : omap resolved_promise
             ((journal w ++ [ASerialize value])
               ++ [ARemote (mojom.Invoke internal channel m
                              (mkCallback (next_promise w)))])
             = resolutions w).
  { unfold resolutions. rewrite !omap_app. simpl.
    rewrite !app_nil_r. reflexivity. }
  assert (Hold : forall id cb, responders w !! id = Some cb ->
                               bound_promise cb <> next_promise w).
  { intros id cb Hcb Heq. apply C2, C4 in Hcb. lia. }
  split; simpl.
  - intros id cb [[<- <-] | [_ Hcb]]%lookup_insert_Some; [lia |].
    apply C1 in Hcb. lia.
  - intros id cb [[<- <-] | [_ Hcb]]%lookup_insert_Some; simpl.
    + apply lookup_insert_eq.
    + rewrite lookup_insert_ne by (intros Heq; exact (Hold _ _ Hcb (eq_sym Heq))).
      exact (C2 _ _ Hcb).
  - intros id1 id2 cb1 cb2 [[<- <-] | [Hne1 Hcb1]]%lookup_insert_Some
           [[<- <-] | [Hne2 Hcb2]]%lookup_insert_Some Heq; simpl in Heq.
    + reflexivity.
    + exfalso. exact (Hold _ _ Hcb2 (eq_sym Heq)).
    + exfalso. exact (Hold _ _ Hcb1 Heq).
    + exact (C3 _ _ _ _ Hcb1 Hcb2 Heq).
  - intros p st [[<- <-] | [_ Hp]]%lookup_insert_Some; [lia |].
    apply C4 in Hp. lia.
  - unfold resolutions at 1. simpl journal. rewrite Hres. exact C5.
  - unfold resolutions at 1. simpl journal. rewrite Hres. intros p Hp.
    destruct (C6 p Hp) as [v Hv]. exists v.
    rewrite lookup_insert_ne; [exact Hv |].
    intros <-. apply C4 in Hv. lia.
Qed.
End Table.

Section Replies.
Context `{Collaborators}.

Lemma count_absent (p : PromiseId) (l : list PromiseId) :
  p ∉ l -> length (filter (fun q => q = p) l) = 0.
Proof.
  induction l as [| q l IH]; intros Hp; [reflexivity |].
  apply not_elem_of_cons in Hp as [Hne Hp].
  rewrite filter_cons_False by congruence. exact (IH Hp).
Qed.

Lemma count_NoDup (p : PromiseId) (l : list PromiseId) :
  NoDup l -> length (filter (fun q => q = p) l) <= 1.
Proof.
  induction 1 as [| q l Hq Hnd IH]; [simpl; lia |].
  destruct (decide (q = p)) as [-> | Hne].
  - rewrite filter_cons_True by reflexivity. simpl.
    rewrite (count_absent _ _ Hq). lia.
  - rewrite filter_cons_False by exact Hne. exact IH.
Qed.

(** A reply nobody waits for is dropped. *)
Lemma deliver_unknown (id : RequestId) (reply : CloneableMessage) (w : World) :
  responders w !! id = None -> run (deliver_reply id reply) w = w.
Proof. intros Hid. unfold run, deliver_reply. rewrite Hid. reflexivity. Qed.

(** A reply somebody waits for runs the callback and frees the entry. *)
Lemma deliver_known (id : RequestId) (reply : CloneableMessage) (w : World)
    (cb : InvokeCallback) :
  consistent w -> responders w !! id = Some cb ->
  run (deliver_reply id reply) w =
  set_promises (<[bound_promise cb := Fulfilled (deserializer reply)]> (promises w))
    (next_promise w)
    (record (AResolve (bound_promise cb) reply)
       (set_responders (delete id (responders w)) (next_request_id w) w)).
Proof.
  intros Hc Hid. unfold run, deliver_reply, run_callback, Promise_Resolve.
  rewrite Hid. simpl. rewrite (responder_pending w Hc id cb Hid). reflexivity.
Qed.

Lemma deliver_responders (id : RequestId) (reply : CloneableMessage) (w : World) :
  responders (run (deliver_reply id reply) w) = delete id (responders w).
Proof.
  unfold run, deliver_reply, run_callback, Promise_Resolve.
  destruct (responders w !! id) as [cb |] eqn:Hid; simpl.
  - destruct (promises w !! bound_promise cb) as [[| v] |]; reflexivity.
  - symmetry. apply delete_id, Hid.
Qed.

Lemma deliver_consistent (id : RequestId) (reply : CloneableMessage) (w : World) :
  consistent w -> consistent (run (deliver_reply id reply) w).
Proof.
  intros Hc. destruct (responders w !! id) as [cb |] eqn:Hid.
  2:{ rewrite (deliver_unknown _ _ _ Hid). exact Hc. }
  rewrite (deliver_known _ _ _ _ Hc Hid).
  pose proof (responder_pending w Hc id cb Hid) as Hpending.
  destruct Hc as [C1 C2 C3 C4 C5 C6].
  assert (Hfresh : bound_promise cb ∉ resolutions w).
  { intros Hin. destruct (C6 _ Hin) as [v Hv]. congruence. }
  assert (Hres : omap resolved_promise
                   (journal w ++ [AResolve (bound_promise cb) reply])
                 = resolutions w ++ [bound_promise cb]).
  { unfold resolutions. rewrite omap_app. reflexivity. }
  split; simpl.
  - intros id' cb' [_ Hcb]%lookup_delete_Some. exact (C1 _ _ Hcb).
  - intros id' cb' [Hne Hcb]%lookup_delete_Some.
    rewrite lookup_insert_ne; [exact (C2 _ _ Hcb) |].
    intros Heq. apply Hne. exact (C3 _ _ _ _ Hid Hcb Heq).
  - intros id1 id2 cb1 cb2 [_ Hcb1]%lookup_delete_Some
           [_ Hcb2]%lookup_delete_Some. exact (C3 _ _ _ _ Hcb1 Hcb2).
  - intros p st [[<- _] | [_ Hp]]%lookup_insert_Some.
    + exact (C4 _ _ Hpending).
    + exact (C4 _ _ Hp).
  - unfold resolutions at 1. simpl journal. rewrite Hres.
    apply NoDup_app. split; [exact C5 |]. split; [| apply NoDup_singleton].
    intros p Hp ->%list_elem_of_singleton. exact (Hfresh Hp).
  - unfold resolutions at 1. simpl journal. rewrite Hres.
    intros p [Hp | ->%list_elem_of_singleton]%elem_of_app.
    + destruct (C6 p Hp) as [v Hv].
      destruct (decide (bound_promise cb = p)) as [<- | Hne].
      * eexists. apply lookup_insert_eq.
      * exists v. rewrite lookup_insert_ne by exact Hne. exact Hv.
    + eexists. apply lookup_insert_eq.
Qed.

Lemma step_consistent (e : Event) (w : World) :
  consistent w -> consistent (step e w).
Proof.
  intros Hc.
  destruct e as [i c a | i c a | i all id c a | c a | i c a | c v t | id r].
  5: exact (Invoke_consistent i c a w Hc).
  6: exact (deliver_consistent id r w Hc).
  all: match goal with
       | |- consistent (step ?e ?w0) =>
           destruct (one_way_frame e w0 I) as [Hk Hres];
           exact (consistent_kept _ _ Hk Hres Hc)
       end.
Qed.

Lemma exec_consistent (es : list Event) :
  forall w, consistent w -> consistent (exec es w).
Proof.
  induction es as [| e es IH]; intros w Hc; [exact Hc |].
  exact (IH _ (step_consistent e w Hc)).
Qed.

(** An entry of the table stays until its own reply arrives. *)
Lemma step_keeps_responder (e : Event) (w : World) (id : RequestId)
    (cb : InvokeCallback) :
  consistent w -> responders w !! id = Some cb ->
  (forall r, e <> ReplyArrives id r) ->
  responders (step e w) !! id = Some cb.
Proof.
  intros Hc Hid Hother.
  destruct e as [i c a | i c a | i all n c a | c a | i c a | c v t | id' r].
  5:{ simpl. destruct (serializer a) as [err | m] eqn:Hs.
      - unfold run, Invoke, bind. rewrite (SerializeV8Value_fails _ _ _ Hs).
        exact Hid.
      - unfold run. rewrite (Invoke_serialized _ _ _ _ _ Hs). simpl.
        rewrite lookup_insert_ne; [exact Hid |].
        intros Heq. apply (responder_issued w Hc) in Hid. lia. }
  6:{ simpl. rewrite deliver_responders.
      rewrite lookup_delete_ne; [exact Hid |].
      intros ->. exact (Hother r eq_refl). }
  all: match goal with
       | |- responders (step ?e ?w0) !! _ = _ =>
           destruct (one_way_frame e w0 I) as [(_ & _ & Hr & _) _];
           rewrite Hr; exact Hid
       end.
Qed.

Lemma exec_keeps_responder (es : list Event) (id : RequestId)
    (cb : InvokeCallback) :
  forall w, consistent w -> responders w !! id = Some cb ->
    (forall r, ReplyArrives id r ∉ es) ->
    responders (exec es w) !! id = Some cb.
Proof.
  induction es as [| e es IH]; intros w Hc Hid Hother; [exact Hid |].
  apply (IH (step e w)).
  - exact (step_consistent e w Hc).
  - apply (step_keeps_responder e w id cb Hc Hid).
    intros r ->. apply (Hother r). left.
  - intros r Hin. apply (Hother r). right. exact Hin.
Qed.
End Replies.

(** C4. [invoke] on an argument that serializes returns a promise and
    hands the call to the transport with a callback bound to that promise.
    Whatever the script does next, the promise stays pending until the
    reply to this call arrives, and that reply resolves it, once, with the
    decoded reply value. *)
Theorem invoke_promise_resolves_with_decoded_reply `{Collaborators}
    (history later : list Event) (internal : bool) (channel : string)
    (value : V8Value) (m reply : CloneableMessage) :
  let w := exec history empty_world in
  let id := next_request_id w in
  serializer value = inr m ->
  (forall r, ReplyArrives id r ∉ later) ->
  exists p,
    result (Invoke internal channel value) w = Some p
    /\ transmitted (run (Invoke internal channel value) w)
       = transmitted w ++ [mojom.Invoke internal channel m (mkCallback p)]
    /\ let w' := exec later (run (Invoke internal channel value) w) in
       promises w' !! p = Some Pending
       /\ times_resolved p w' = 0
       /\ promises (step (ReplyArrives id reply) w') !! p
          = Some (Fulfilled (deserializer reply))
       /\ times_resolved p (step (ReplyArrives id reply) w') = 1.
Proof.
  intros w id Hok Hlater.
  assert (Hw : consistent w) by apply exec_consistent, consistent_empty.
  pose proof (Invoke_consistent internal channel value w Hw) as Hw1.
  exists (next_promise w). unfold result, run in *.
  rewrite (Invoke_serialized _ _ _ _ _ Hok) in *. cbn [fst snd] in *.
  split; [reflexivity |]. split.
  { rewrite (transmitted_journal w _
               [ASerialize value;
                ARemote (mojom.Invoke internal channel m
                           (mkCallback (next_promise w)))]); [reflexivity |].
    simpl. rewrite <- app_assoc. reflexivity. }
  set (w1 := set_responders _ _ _) in *. cbv zeta.
  assert (Hid : responders w1 !! id = Some (mkCallback (next_promise w)))
    by apply lookup_insert_eq.
  pose proof (exec_consistent later w1 Hw1) as Hw'.
  pose proof (exec_keeps_responder later id _ w1 Hw1 Hid Hlater) as Hid'.
  pose proof (responder_pending _ Hw' _ _ Hid') as Hpending.
  simpl in Hpending.
  assert (Hfresh : next_promise w ∉ resolutions (exec later w1)).
  { intros Hin. destruct (resolved_settled _ Hw' _ Hin) as [v Hv]. congruence. }
  split; [exact Hpending |]. split; [exact (count_absent _ _ Hfresh) |].
  simpl step. rewrite (deliver_known _ _ _ _ Hw' Hid'). simpl.
  split; [apply lookup_insert_eq |].
  unfold times_resolved, resolutions. simpl journal.
  rewrite omap_app, filter_app, length_app.
  change (omap resolved_promise (journal (exec later w1)))
    with (resolutions (exec later w1)).
  rewrite (count_absent _ _ Hfresh).
  change (omap resolved_promise [AResolve (next_promise w) reply])
    with [next_promise w].
  rewrite filter_cons_True by reflexivity. reflexivity.
Qed.

Lemma invoke_promise_resolves_with_decoded_reply_witness :
  let script := [CallSend false "ping" (V8Number 1);
                 CallInvoke false "first" (V8Number 2)] in
  let later := [CallInvoke false "third" (V8Number 4);
                ReplyArrives 0 (mkCloneable [3%Z; 9%Z])] in
  exists p,
    result (@Invoke Stub.host false "second" (V8Number 3))
           (@exec Stub.host script empty_world) = Some p
    /\ promises (@step Stub.host (ReplyArrives 1 (mkCloneable [3%Z; 5%Z]))
                   (@exec Stub.host later
                      (run (@Invoke Stub.host false "second" (V8Number 3))
                           (@exec Stub.host script empty_world)))) !! p
       = Some (Fulfilled (V8Number 5)).
Proof.
  cbv zeta.
  destruct (@invoke_promise_resolves_with_decoded_reply Stub.host
              [CallSend false "ping" (V8Number 1);
               CallInvoke false "first" (V8Number 2)]
              [CallInvoke false "third" (V8Number 4);
               ReplyArrives 0 (mkCloneable [3%Z; 9%Z])]
              false "second" (V8Number 3) (mkCloneable [3%Z; 3%Z])
              (mkCloneable [3%Z; 5%Z]) eq_refl)
    as (p & Hp & _ & _ & _ & Hresolved & _).
  - intros r Hin. vm_compute in Hin.
    repeat (apply elem_of_cons in Hin as [Hin | Hin]; [discriminate Hin |]).
    inversion Hin.
  - exists p. split; [exact Hp | exact Hresolved].
Defined.

(** C6. In every world a script can reach, each promise has been resolved
    at most once.  The pending-call table stays consistent; a reply whose
    correlation id is not in the table (never issued, or already answered)
    changes nothing; a reply that is delivered frees its own entry, so a
    second reply to the same call is unknown, and leaves all other entries
    as they were. *)
Theorem async_call_resolves_at_most_once `{Collaborators}
    (script : list Event) :
  let w := exec script empty_world in
  (forall p, times_resolved p w <= 1)
  /\ consistent w
  /\ (forall id reply,
        responders w !! id = None -> step (ReplyArrives id reply) w = w)
  /\ (forall id reply,
        responders (step (ReplyArrives id reply) w) !! id = None)
  /\ (forall id reply id',
        id' <> id ->
        responders (step (ReplyArrives id reply) w) !! id' = responders w !! id').
Proof.
  intros w.
  assert (Hw : consistent w) by apply exec_consistent, consistent_empty.
  split; [| split; [exact Hw | split; [| split]]].
  - intros p. apply count_NoDup, (resolved_once w Hw).
  - intros id reply Hid. exact (deliver_unknown id reply w Hid).
  - intros id reply. simpl. rewrite deliver_responders. apply lookup_delete_eq.
  - intros id reply id' Hne. simpl. rewrite deliver_responders.
    apply lookup_delete_ne. congruence.
Qed.

Lemma async_call_resolves_at_most_once_witness :
  let w := @exec Stub.host [CallInvoke false "ask" (V8Number 1);
                            ReplyArrives 0 (mkCloneable [3%Z; 5%Z]);
                            ReplyArrives 0 (mkCloneable [3%Z; 6%Z])]
                 empty_world in
  times_resolved 0 w <= 1
  /\ @step Stub.host (ReplyArrives 0 (mkCloneable [3%Z; 7%Z])) w = w
  /\ @step Stub.host (ReplyArrives 4 (mkCloneable [3%Z; 7%Z])) w = w.
Proof.
  cbv zeta.
  destruct (@async_call_resolves_at_most_once Stub.host
              [CallInvoke false "ask" (V8Number 1);
               ReplyArrives 0 (mkCloneable [3%Z; 5%Z]);
               ReplyArrives 0 (mkCloneable [3%Z; 6%Z])])
    as (Honce & _ & Hunknown & _ & _).
  split; [exact (Honce 0) |]. split; apply Hunknown; reflexivity.
Defined.

(** * Further properties of the endpoint *)

Section Outcomes.
Context `{Collaborators}.

(** The five ways through [PostMessage]. *)
Lemma PostMessage_outcomes (channel : string) (value : V8Value)
    (transfer : option V8Value) (w : World) :
  let w' := run (PostMessage channel value transfer) w in
  (exists e, serializer value = inl e
     /\ journal w' = journal w ++ [ASerialize value]
     /\ pending_exception w' = Some e /\ neutered w' = neutered w)
  \/ (exists m, serializer value = inr m /\ transfer = None
     /\ journal w' = journal w
          ++ [ASerialize value;
              ARemote (mojom.ReceivePostMessage channel (mkTransferable m []))]
     /\ pending_exception w' = pending_exception w
     /\ neutered w' = neutered w)
  \/ (exists m t, serializer value = inr m /\ transfer = Some t
     /\ to_objects t = None
     /\ journal w' = journal w
          ++ [ASerialize value; AConvertTransfer t; AThrow invalid_transfer]
     /\ pending_exception w' = Some invalid_transfer
     /\ neutered w' = neutered w)
  \/ (exists m t objs ids, serializer value = inr m /\ transfer = Some t
     /\ to_objects t = Some objs /\ acceptable_transfer w objs ids
     /\ journal w' = journal w
          ++ ASerialize value :: AConvertTransfer t :: map ADisentangle objs
          ++ [ARemote (mojom.ReceivePostMessage channel
                         (mkTransferable m (map mkChannel ids)))]
     /\ pending_exception w' = pending_exception w
     /\ neutered w' = list_to_set ids ∪ neutered w)
  \/ (exists m t pre bad rest, serializer value = inr m /\ transfer = Some t
     /\ to_objects t = Some (map V8MessagePort pre ++ bad :: rest)
     /\ journal w' = journal w
          ++ ASerialize value :: AConvertTransfer t
          :: map ADisentangle (map V8MessagePort pre ++ [bad])
          ++ [AThrow invalid_transfer]
     /\ pending_exception w' = Some invalid_transfer
     /\ neutered w' = list_to_set pre ∪ neutered w).
Proof.
  cbv zeta. destruct (serializer value) as [e | m] eqn:Hs.
  { left. exists e. unfold run, PostMessage, bind.
    rewrite (SerializeV8Value_fails _ _ _ Hs). simpl. repeat split. }
  right. destruct transfer as [t |].
  2:{ left. exists m. rewrite (PostMessage_serialized _ _ _ _ _ Hs). simpl.
      rewrite <- app_assoc. repeat split. }
  right. destruct (to_objects t) as [objs |] eqn:Hconv.
  2:{ left. exists m, t.
      destruct (PostMessage_unconvertible channel value t m w Hs Hconv)
        as (Hj & Hn & He & _). repeat split; assumption. }
  right. destruct (transfer_list_cases objs (neutered w))
    as [(ids & Hobjs & Hnd & Hfresh)
       | (pre & bad & rest & -> & Hnd & Hfresh & Hbad)].
  - left. exists m, t, objs, ids.
    assert (Hacc : acceptable_transfer w objs ids) by (repeat split; assumption).
    destruct (PostMessage_accepted channel value t m objs ids w Hs Hconv Hacc)
      as (Hj & Hn & He & _). repeat split; assumption.
  - right. exists m, t, pre, bad, rest.
    destruct (PostMessage_rejected channel value t m pre bad rest w Hs Hconv
                Hnd Hfresh Hbad) as (Hj & Hn & He & _).
    repeat split; assumption.
Qed.

Lemma Forall_permitted_Disentangle (channel : string) (value t : V8Value)
    (objs : list V8Value) :
  Forall (permitted (CallPostMessage channel value (Some t)))
         (map ADisentangle objs).
Proof. apply Forall_Disentangle. intros o. simpl. discriminate. Qed.

(** What one event appends to the journal: only actions its method may
    perform, among them at most one call to the transport; a call that
    hands nothing to the transport leaves an exception pending, one that
    does leaves the pending exception as it was. *)
Lemma step_shape (e : Event) (w : World) :
  exists tail,
    journal (step e w) = journal w ++ tail
    /\ Forall (permitted e) tail
    /\ ((exists c, omap remote_call tail = [c]
           /\ pending_exception (step e w) = pending_exception w)
        \/ (omap remote_call tail = []
            /\ if is_call e
               then exists x, pending_exception (step e w) = Some x
               else pending_exception (step e w) = pending_exception w)).
Proof.
  destruct e as [i c a | i c a | i all id c a | c a | i c a | c v t | id r].
  1-4: simpl step; run_method; unfold SerializeV8Value;
    destruct (serializer a) as [err | m]; simpl;
    [ exists [ASerialize a]; split; [reflexivity |]; split;
        [repeat constructor | right; split; [reflexivity | eexists; reflexivity]]
    | eexists; split; [rewrite <- !app_assoc; reflexivity |]; split;
        [repeat constructor; simpl; auto
        | left; eexists; split; reflexivity] ].
  - simpl step. destruct (serializer a) as [err | m] eqn:Hs.
    + unfold run, Invoke, bind. rewrite (SerializeV8Value_fails _ _ _ Hs). simpl.
      exists [ASerialize a]. split; [reflexivity |]. split.
      * repeat constructor.
      * right. split; [reflexivity | eexists; reflexivity].
    + unfold run. rewrite (Invoke_serialized _ _ _ _ _ Hs). simpl.
      eexists. split; [rewrite <- !app_assoc; reflexivity |]. split.
      * repeat constructor; simpl; auto.
      * left. eexists. split; reflexivity.
  - simpl step.
    destruct (PostMessage_outcomes c v t w)
      as [(e & _ & Hj & He & _)
         | [(m & _ & -> & Hj & He & _)
           | [(m & t' & _ & -> & _ & Hj & He & _)
             | [(m & t' & objs & ids & _ & -> & _ & _ & Hj & He & _)
               | (m & t' & pre & bad & rest & _ & -> & _ & Hj & He & _)]]]];
      eexists; (split; [exact Hj |]).
    + split; [repeat constructor |].
      right. split; [reflexivity | eexists; exact He].
    + split; [repeat constructor; simpl; auto |].
      left. eexists. split; [reflexivity | exact He].
    + split; [repeat constructor; simpl; auto; discriminate |].
      right. split; [reflexivity | eexists; exact He].
    + split.
      * constructor; [reflexivity |]. constructor; [reflexivity |].
        apply Forall_app. split; [apply Forall_permitted_Disentangle |].
        repeat constructor.
      * left. eexists. split; [| exact He]. simpl.
        rewrite omap_app, omap_remote_Disentangle. reflexivity.
    + split.
      * constructor; [reflexivity |]. constructor; [reflexivity |].
        apply Forall_app. split; [apply Forall_permitted_Disentangle |].
        repeat constructor. discriminate.
      * right. split; [| eexists; exact He]. simpl.
        rewrite omap_app, omap_remote_Disentangle. reflexivity.
  - simpl step. unfold run, deliver_reply, run_callback, Promise_Resolve.
    destruct (responders w !! id) as [cb |]; simpl.
    + exists [AResolve (bound_promise cb) r].
      destruct (promises w !! bound_promise cb) as [[| v] |]; simpl;
        (split; [reflexivity |]); (split; [repeat constructor |]);
        right; split; reflexivity.
    + exists []. split; [symmetry; apply app_nil_r |].
      split; [constructor | right; split; reflexivity].
Qed.
End Outcomes.

Lemma reply_transmits_nothing (id : RequestId) (r : CloneableMessage)
    (tail : list Action) :
  Forall (permitted (ReplyArrives id r)) tail -> omap remote_call tail = [].
Proof.
  induction 1 as [| a tail Ha _ IH]; [reflexivity |].
  destruct a; try contradiction. exact IH.
Qed.

(** X1. Every method calls only its own collaborators: what an event
    appends to the journal is the serialization of its own argument and
    its own method of the mojo interface, carrying the [internal] flag,
    routing arguments and channel it was given; only [PostMessage] with a
    transfer list converts, extracts or throws, and what it throws is
    "Invalid value for transfer"; only [SendSync] deserializes. *)
Theorem methods_call_only_their_collaborators `{Collaborators}
    (e : Event) (w : World) :
  exists tail,
    journal (step e w) = journal w ++ tail /\ Forall (permitted e) tail.
Proof.
  destruct (step_shape e w) as (tail & Hj & Hp & _).
  exists tail. split; assumption.
Qed.

(** X2. A call into the endpoint has exactly two outcomes: it hands one
    message to the transport and leaves the isolate's pending exception
    as it was, or it hands over nothing and leaves an exception pending. *)
Theorem call_transmits_or_throws `{Collaborators} (e : Event) (w : World) :
  is_call e = true ->
  (exists c, transmitted (step e w) = transmitted w ++ [c]
     /\ pending_exception (step e w) = pending_exception w)
  \/ (transmitted (step e w) = transmitted w
      /\ exists x, pending_exception (step e w) = Some x).
Proof.
  intros Hcall.
  destruct (step_shape e w) as (tail & Hj & _ & [(c & Hc & He) | (Hc & He)]).
  - left. exists c. split; [| exact He].
    rewrite (transmitted_journal _ _ _ Hj), Hc. reflexivity.
  - right. rewrite Hcall in He. split; [| exact He].
    rewrite (transmitted_journal _ _ _ Hj), Hc. apply app_nil_r.
Qed.

Lemma call_transmits_or_throws_witness :
  (exists c,
     transmitted (@step Stub.host (CallSendToHost "ping" (V8Number 1))
                        empty_world) = [] ++ [c]
     /\ pending_exception (@step Stub.host (CallSendToHost "ping" (V8Number 1))
                                 empty_world) = None)
  \/ (transmitted (@step Stub.host (CallSendToHost "ping" (V8Number 1))
                         empty_world) = []
      /\ exists x,
           pending_exception (@step Stub.host
                                (CallSendToHost "ping" (V8Number 1))
                                empty_world) = Some x).
Proof.
  exact (@call_transmits_or_throws Stub.host
           (CallSendToHost "ping" (V8Number 1)) empty_world eq_refl).
Defined.

(** X3. The endpoint only ever appends to what it has handed to the
    transport: after any script the earlier messages are still there, in
    their order, followed by at most one new message per call; replies
    add none. *)
Theorem transport_log_is_append_only `{Collaborators}
    (script : list Event) (w : World) :
  exists suffix,
    transmitted (exec script w) = transmitted w ++ suffix
    /\ length suffix <= length (List.filter is_call script).
Proof.
  revert w. induction script as [| e script IH]; intros w.
  { exists []. split; [symmetry; apply app_nil_r | simpl; lia]. }
  destruct (IH (step e w)) as (suffix & Hs & Hlen).
  destruct (step_shape e w) as (tail & Hj & Hp & Hout).
  exists (omap remote_call tail ++ suffix). split.
  - change (exec (e :: script) w) with (exec script (step e w)).
    rewrite Hs, (transmitted_journal _ _ _ Hj), app_assoc. reflexivity.
  - rewrite length_app. simpl.
    destruct Hout as [(c & Hc & _) | (-> & Hex)].
    + destruct e; try (rewrite Hc; simpl; lia).
      rewrite (reply_transmits_nothing _ _ _ Hp). simpl. lia.
    + destruct (is_call e); simpl; lia.
Qed.

Section Plain.
Context `{Collaborators}.

Lemma plain_step_transmits (e : Event) (w : World) :
  is_plain e = true ->
  transmitted (step e w)
  = transmitted w ++ match wire e with Some c => [c] | None => [] end.
Proof.
  intros Hplain.
  destruct e as [i c a | i c a | i all id c a | c a | i c a | c v t | id r];
    try discriminate Hplain;
    simpl step; simpl wire; run_method; unfold SerializeV8Value;
    destruct (serializer a) as [err | m]; simpl;
    unfold transmitted; simpl; rewrite !omap_app; simpl;
    rewrite ?app_nil_r; try rewrite <- app_assoc; reflexivity.
Qed.
End Plain.

(** X4. [Send], [SendSync], [SendTo] and [SendToHost] reach the transport
    in the order they were called: after a script of such calls the
    transport has received, after what it had before, the message of each
    call whose argument serialized, in call order, and nothing for the
    calls whose argument did not. *)
Theorem plain_calls_arrive_in_call_order `{Collaborators}
    (script : list Event) (w : World) :
  Forall (fun e => is_plain e = true) script ->
  transmitted (exec script w) = transmitted w ++ omap wire script.
Proof.
  intros Hplain. revert w.
  induction Hplain as [| e script He _ IH]; intros w.
  { symmetry. apply app_nil_r. }
  change (exec (e :: script) w) with (exec script (step e w)).
  rewrite IH, (plain_step_transmits e w He), <- app_assoc.
  f_equal. cbn [omap list_omap]. destruct (wire e); reflexivity.
Qed.

Lemma plain_calls_arrive_in_call_order_witness :
  transmitted (@exec Stub.host
                 [CallSend false "a" (V8Number 1);
                  CallSend false "a" Stub.callback;
                  CallSendToHost "b" (V8Number 2)] empty_world)
  = [mojom.Message false "a" (mkCloneable [3%Z; 1%Z]);
     mojom.MessageHost "b" (mkCloneable [3%Z; 2%Z])].
Proof.
  apply (@plain_calls_arrive_in_call_order Stub.host
           [CallSend false "a" (V8Number 1);
            CallSend false "a" Stub.callback;
            CallSendToHost "b" (V8Number 2)] empty_world).
  repeat constructor.
Defined.

(** X5. [PostMessage] with a payload that serializes and a transfer
    argument that converts to objects sends its message exactly when the
    objects are distinct, still entangled message ports.  The message then
    carries the serialized payload and the channels of all those ports in
    list order, exactly these ports are neutered, and no exception is
    raised. *)
Theorem postMessage_sends_iff_transfer_acceptable `{Collaborators}
    (channel : string) (value t : V8Value) (m : CloneableMessage)
    (objs : list V8Value) (w : World) :
  serializer value = inr m ->
  to_objects t = Some objs ->
  let w' := run (PostMessage channel value (Some t)) w in
  (forall ids, acceptable_transfer w objs ids ->
     transmitted w' = transmitted w
       ++ [mojom.ReceivePostMessage channel
             (mkTransferable m (map mkChannel ids))]
     /\ neutered w' = list_to_set ids ∪ neutered w
     /\ pending_exception w' = pending_exception w)
  /\ (transmitted w' <> transmitted w ->
      exists ids, acceptable_transfer w objs ids).
Proof.
  intros Hok Hconv w'. subst w'. split.
  - intros ids Hacc.
    destruct (PostMessage_accepted channel value t m objs ids w Hok Hconv Hacc)
      as (Hj & Hn & He & _).
    split; [| split; assumption].
    rewrite (transmitted_journal _ _ _ Hj). simpl.
    rewrite omap_app, omap_remote_Disentangle. reflexivity.
  - intros Hsent.
    destruct (transfer_list_cases objs (neutered w))
      as [(ids & Hobjs & Hnd & Hfresh)
         | (pre & bad & rest & -> & Hnd & Hfresh & Hbad)].
    { exists ids. repeat split; assumption. }
    exfalso. apply Hsent.
    destruct (PostMessage_rejected channel value t m pre bad rest w Hok Hconv
                Hnd Hfresh Hbad) as (Hj & _).
    rewrite (transmitted_journal _ _ _ Hj). simpl.
    rewrite omap_app, omap_remote_Disentangle. apply app_nil_r.
Qed.

Lemma postMessage_sends_iff_transfer_acceptable_witness :
  let w' := run (@PostMessage Stub.host "chan" (V8Number 1)
                   (Some (V8Array [Stub.portA; Stub.portB]))) empty_world in
  transmitted w' = [] ++ [mojom.ReceivePostMessage "chan"
                            (mkTransferable (mkCloneable [3%Z; 1%Z])
                                            (map mkChannel [7; 8]))]
  /\ neutered w' = list_to_set [7; 8] ∪ ∅
  /\ pending_exception w' = None.
Proof.
  apply (proj1 (@postMessage_sends_iff_transfer_acceptable Stub.host "chan"
                  (V8Number 1) (V8Array [Stub.portA; Stub.portB])
                  (mkCloneable [3%Z; 1%Z]) [Stub.portA; Stub.portB]
                  empty_world eq_refl eq_refl)).
  split; [reflexivity |]. split.
  - apply NoDup_cons. split; [| apply NoDup_singleton].
    intros Hin. apply list_elem_of_singleton in Hin. discriminate Hin.
  - intros p _. apply not_elem_of_empty.
Defined.



Lemma methods_state_of_reply `{Collaborators} (id : RequestId)
    (r : CloneableMessage) (w : World) :
  neutered (step (ReplyArrives id r) w) = neutered w
  /\ transmitted (step (ReplyArrives id r) w) = transmitted w
  /\ pending_exception (step (ReplyArrives id r) w) = pending_exception w.
Proof.
  destruct (step_shape (ReplyArrives id r) w)
    as (tail & Hj & Hp & [(x & _ & He) | (_ & He)]);
    (split; [| split; [| exact He]]);
    try (rewrite (transmitted_journal _ _ _ Hj),
           (reply_transmits_nothing _ _ _ Hp); apply app_nil_r);
    simpl step; unfold run, deliver_reply, run_callback, Promise_Resolve;
    destruct (responders w !! id) as [cb |]; simpl; try reflexivity;
    destruct (promises w !! bound_promise cb) as [[| v] |]; reflexivity.
Qed.

(** X7. The methods keep to their own state: the four plain methods
    neither detach a port nor touch a promise or the pending calls;
    [PostMessage] touches no promise and no pending call; [Invoke]
    detaches no port; a reply detaches no port, hands nothing to the
    transport and leaves the pending exception alone. *)
Theorem methods_keep_to_their_state `{Collaborators} (e : Event) (w : World) :
  match e with
  | CallPostMessage _ _ _ => calls_kept w (step e w)
  | CallInvoke _ _ _ => neutered (step e w) = neutered w
  | ReplyArrives _ _ =>
      neutered (step e w) = neutered w
      /\ transmitted (step e w) = transmitted w
      /\ pending_exception (step e w) = pending_exception w
  | _ => calls_kept w (step e w) /\ neutered (step e w) = neutered w
  end.
Proof.
  destruct e as [i c a | i c a | i all id c a | c a | i c a | c v t | id r].
  1-4: (split; [match goal with
                | |- calls_kept _ (step ?e ?w0) =>
                    exact (proj1 (one_way_frame e w0 I))
                end |]);
    simpl step; run_method; unfold SerializeV8Value;
    destruct (serializer a); reflexivity.
  - simpl step. run_method. unfold SerializeV8Value.
    destruct (serializer a); reflexivity.
  - exact (proj1 (one_way_frame (CallPostMessage c v t) w I)).
  - exact (methods_state_of_reply id r w).
Qed.



Section Promises.
Context `{Collaborators}.

(** The two ways through [Invoke]. *)
Lemma Invoke_outcomes (internal : bool) (channel : string) (value : V8Value)
    (w : World) :
  let w' := run (Invoke internal channel value) w in
  (exists e, serializer value = inl e
     /\ result (Invoke internal channel value) w = None
     /\ journal w' = journal w ++ [ASerialize value]
     /\ calls_kept w w')
  \/ (exists m, serializer value = inr m
     /\ result (Invoke internal channel value) w = Some (next_promise w)
     /\ journal w' = journal w
          ++ [ASerialize value;
              ARemote (mojom.Invoke internal channel m
                         (mkCallback (next_promise w)))]
     /\ promises w' = <[next_promise w := Pending]> (promises w)
     /\ next_promise w' = S (next_promise w)
     /\ pending_exception w' = pending_exception w).
Proof.
  cbv zeta. unfold result, run.
  destruct (serializer value) as [e | m] eqn:Hs.
  - left. exists e. unfold Invoke, bind.
    rewrite (SerializeV8Value_fails _ _ _ Hs). simpl. repeat split.
  - right. exists m. rewrite (Invoke_serialized _ _ _ _ _ Hs). simpl.
    rewrite <- app_assoc. repeat split.
Qed.

Lemma no_invoke_in_tail (e : Event) (tail : list Action) :
  match e with CallInvoke _ _ _ => False | _ => True end ->
  Forall (permitted e) tail ->
  omap invoke_promise (omap remote_call tail) = [].
Proof.
  intros He. induction 1 as [| a tail Ha _ IH]; [reflexivity |].
  destruct a as [v | m | v | o | x | c | p m]; try exact IH.
  destruct c; try exact IH.
  destruct e; simpl in Ha; contradiction.
Qed.

Lemma step_next_promise (e : Event) (w : World) :
  next_promise w <= next_promise (step e w).
Proof.
  destruct e as [i c a | i c a | i all id c a | c a | i c a | c v t | id r].
  5:{ simpl step. unfold run, Invoke, bind, SerializeV8Value.
      destruct (serializer a); simpl; lia. }
  6:{ simpl step. unfold run, deliver_reply, run_callback, Promise_Resolve.
      destruct (responders w !! id) as [cb |]; simpl; [| lia].
      destruct (promises w !! bound_promise cb) as [[| v] |]; simpl; lia. }
  all: match goal with
       | |- _ <= next_promise (step ?e ?w0) =>
           destruct (one_way_frame e w0 I) as [(_ & -> & _) _]; lia
       end.
Qed.

Lemma step_invoked_promises (e : Event) (w : World) :
  NoDup (invoked_promises w) ->
  (forall p, p ∈ invoked_promises w -> p < next_promise w) ->
  NoDup (invoked_promises (step e w))
  /\ forall p, p ∈ invoked_promises (step e w) -> p < next_promise (step e w).
Proof.
  intros Hnd Hold. unfold invoked_promises in *.
  assert (Hsame : match e with CallInvoke _ _ _ => False | _ => True end ->
            omap invoke_promise (transmitted (step e w))
            = omap invoke_promise (transmitted w)).
  { intros He. destruct (step_shape e w) as (tail & Hj & Hp & _).
    rewrite (transmitted_journal _ _ _ Hj), omap_app,
      (no_invoke_in_tail e tail He Hp). apply app_nil_r. }
  pose proof (step_next_promise e w) as Hmono.
  assert (Hkeep : omap invoke_promise (transmitted (step e w))
                  = omap invoke_promise (transmitted w) ->
            NoDup (omap invoke_promise (transmitted (step e w)))
            /\ forall p, p ∈ omap invoke_promise (transmitted (step e w)) ->
                         p < next_promise (step e w)).
  { intros ->. split; [exact Hnd |]. intros p Hp. specialize (Hold p Hp). lia. }
  destruct e as [i c a | i c a | i all id c a | c a | i c a | c v t | id r];
    try (apply Hkeep, Hsame; exact I).
  clear Hsame Hmono.
  destruct (Invoke_outcomes i c a w)
    as [(e & _ & _ & Hj & _) | (m & _ & _ & Hj & _ & Hn & _)].
  - apply Hkeep. simpl step.
    rewrite (transmitted_journal _ _ _ Hj). simpl. rewrite app_nil_r.
    reflexivity.
  - simpl step. rewrite (transmitted_journal _ _ _ Hj), Hn, omap_app. simpl.
    split.
    + apply NoDup_app. split; [exact Hnd |]. split; [| apply NoDup_singleton].
      intros p Hp ->%list_elem_of_singleton. specialize (Hold _ Hp). lia.
    + intros p [Hp | ->%list_elem_of_singleton]%elem_of_app; [| lia].
      specialize (Hold p Hp). lia.
Qed.

Lemma exec_invoked_promises (script : list Event) :
  forall w,
    NoDup (invoked_promises w) ->
    (forall p, p ∈ invoked_promises w -> p < next_promise w) ->
    NoDup (invoked_promises (exec script w))
    /\ forall p, p ∈ invoked_promises (exec script w) ->
                 p < next_promise (exec script w).
Proof.
  induction script as [| e script IH]; intros w Hnd Hold; [split; assumption |].
  destruct (step_invoked_promises e w Hnd Hold) as [Hnd' Hold'].
  exact (IH (step e w) Hnd' Hold').
Qed.
End Promises.

(** X9. [Invoke] returns an empty handle exactly when its argument does
    not serialize, and then it has created no promise, registered no
    callback and sent nothing.  Otherwise the handle it returns is a
    promise created by this call, still pending, and it is the promise
    bound into the callback that went out with the call. *)
Theorem invoke_handle_is_the_callbacks_promise `{Collaborators}
    (internal : bool) (channel : string) (value : V8Value) (w : World) :
  let w' := run (Invoke internal channel value) w in
  match result (Invoke internal channel value) w with
  | None =>
      (exists e, serializer value = inl e)
      /\ calls_kept w w' /\ transmitted w' = transmitted w
  | Some handle =>
      exists m, serializer value = inr m
        /\ transmitted w' = transmitted w
             ++ [mojom.Invoke internal channel m (mkCallback handle)]
        /\ handle = next_promise w
        /\ promises w' !! handle = Some Pending
        /\ pending_exception w' = pending_exception w
  end.
Proof.
  cbv zeta.
  destruct (Invoke_outcomes internal channel value w)
    as [(e & Hs & -> & Hj & Hk) | (m & Hs & -> & Hj & Hp & _ & He)].
  - split; [exists e; exact Hs |]. split; [exact Hk |].
    rewrite (transmitted_journal _ _ _ Hj). apply app_nil_r.
  - exists m. split; [exact Hs |]. split; [| split; [reflexivity | split]].
    + rewrite (transmitted_journal _ _ _ Hj). reflexivity.
    + rewrite Hp. apply lookup_insert_eq.
    + exact He.
Qed.

(** X10. No two asynchronous calls share a promise: whatever script has
    run, the callbacks of the [Invoke] calls handed to the transport are
    bound to pairwise different promises. *)
Theorem invokes_never_share_a_promise `{Collaborators} (script : list Event) :
  NoDup (invoked_promises (exec script empty_world)).
Proof.
  apply (exec_invoked_promises script empty_world).
  - constructor.
  - intros p Hp. inversion Hp.
Qed.



(** X12. The only exceptions a call can leave pending are the one the
    serializer raised for the call's own argument and, from [PostMessage]
    with a transfer list whose payload did serialize, "Invalid value for
    transfer"; otherwise the pending exception is what it was before. *)
Theorem raised_exceptions_are_known `{Collaborators} (e : Event) (w : World) :
  pending_exception (step e w) = pending_exception w
  \/ (exists v x, call_argument e = Some v /\ serializer v = inl x
        /\ pending_exception (step e w) = Some x)
  \/ (exists channel v t m, e = CallPostMessage channel v (Some t)
        /\ serializer v = inr m
        /\ pending_exception (step e w)
           = Some (Error "Invalid value for transfer")).
Proof.
  destruct e as [i c a | i c a | i all id c a | c a | i c a | c v t | id r].
  1-5: simpl step; run_method; unfold SerializeV8Value;
    destruct (serializer a) as [x | m] eqn:Hs; simpl;
    [right; left; exists a, x; repeat split; exact Hs | left; reflexivity].
  - simpl step.
    destruct (PostMessage_outcomes c v t w)
      as [(x & Hs & _ & He & _)
         | [(m & _ & _ & _ & He & _)
           | [(m & t' & Hs & -> & _ & _ & He & _)
             | [(m & t' & objs & ids & _ & _ & _ & _ & _ & He & _)
               | (m & t' & pre & bad & rest & Hs & -> & _ & _ & He & _)]]]].
    + right. left. exists v, x. repeat split; assumption.
    + left. exact He.
    + right. right. exists c, v, t', m. repeat split; assumption.
    + left. exact He.
    + right. right. exists c, v, t', m. repeat split; assumption.
  - left. exact (proj2 (proj2 (methods_state_of_reply id r w))).
Qed.
